(** * Package parser of crossplane-runtime: shallow embedding and properties

    The development follows [pkg/parser/parser.go]: the blank-document
    filter [isEmptyYAML], the dual-scheme decoding loop [Parse], the error
    annotator [annotateErr] and the backend options. *)

From Stdlib Require Import List String Ascii Bool ZArith NArith Lia.
Import ListNotations.
Open Scope string_scope.
Open Scope list_scope.

(** ** Go library helpers used by [isEmptyYAML]

    A Go string is a sequence of bytes; [string] over 8-bit [ascii] is the
    same data. Runes are code points, kept in [Z]. *)

Module Go.

Definition byteZ (c : ascii) : Z := Z.of_N (N_of_ascii c).

(** utf8.RuneError *)
Definition RuneError : Z := 0xFFFD.

(** Continuation-byte bounds of package utf8: [locb], [hicb]. *)
Definition locb : Z := 0x80.
Definition hicb : Z := 0xBF.

(** The entry of utf8's [first] table for a leading byte, as the encoded
    size and the accepted range of the second byte; [None] is the table's
    [xx] (an invalid leading byte). ASCII bytes are handled before the
    table is consulted. *)
Definition first (s0 : Z) : option (nat * (Z * Z)) :=
  if (s0 <? 0xC2)%Z then None
  else if (s0 <=? 0xDF)%Z then Some (2, (locb, hicb))
  else if (s0 =? 0xE0)%Z then Some (3, (0xA0, hicb)%Z)
  else if (s0 <=? 0xEC)%Z then Some (3, (locb, hicb))
  else if (s0 =? 0xED)%Z then Some (3, (locb, 0x9F)%Z)
  else if (s0 <=? 0xEF)%Z then Some (3, (locb, hicb))
  else if (s0 =? 0xF0)%Z then Some (4, (0x90, hicb)%Z)
  else if (s0 <=? 0xF3)%Z then Some (4, (locb, hicb))
  else if (s0 =? 0xF4)%Z then Some (4, (locb, 0x8F)%Z)
  else None.

Definition inRange (lo hi b : Z) : bool := ((lo <=? b) && (b <=? hi))%Z.

(** utf8.DecodeRuneInString: the first rune of [s] and its width in bytes.
    A malformed or truncated encoding yields [(RuneError, 1)], the empty
    string [(RuneError, 0)]. *)
Definition DecodeRuneInString (s : string) : Z * nat :=
  match s with
  | EmptyString => (RuneError, 0)
  | String c0 t0 =>
    let s0 := byteZ c0 in
    if (s0 <? 0x80)%Z then (s0, 1)
    else
      match first s0 with
      | None => (RuneError, 1)
      | Some (sz, (lo, hi)) =>
        match t0 with
        | EmptyString => (RuneError, 1)
        | String c1 t1 =>
          let s1 := byteZ c1 in
          if negb (inRange lo hi s1) then (RuneError, 1)
          else if (sz <=? 2)%nat then
            (Z.lor (Z.shiftl (Z.land s0 0x1F) 6) (Z.land s1 0x3F), 2)
          else
            match t1 with
            | EmptyString => (RuneError, 1)
            | String c2 t2 =>
              let s2 := byteZ c2 in
              if negb (inRange locb hicb s2) then (RuneError, 1)
              else if (sz <=? 3)%nat then
                (Z.lor (Z.lor (Z.shiftl (Z.land s0 0x0F) 12)
                              (Z.shiftl (Z.land s1 0x3F) 6))
                       (Z.land s2 0x3F), 3)
              else
                match t2 with
                | EmptyString => (RuneError, 1)
                | String c3 _ =>
                  let s3 := byteZ c3 in
                  if negb (inRange locb hicb s3) then (RuneError, 1)
                  else
                    (Z.lor (Z.lor (Z.lor (Z.shiftl (Z.land s0 0x07) 18)
                                         (Z.shiftl (Z.land s1 0x3F) 12))
                                  (Z.shiftl (Z.land s2 0x3F) 6))
                           (Z.land s3 0x3F), 4)
                end
            end
        end
      end
  end.

(** unicode.IsSpace: the Latin-1 cases are listed, the others are the
    White_Space table outside Latin-1. *)
Definition IsSpace (r : Z) : bool :=
  if (r <=? 0xFF)%Z then
    ((r =? 0x09) || (r =? 0x0A) || (r =? 0x0B) || (r =? 0x0C) || (r =? 0x0D)
     || (r =? 0x20) || (r =? 0x85) || (r =? 0xA0))%Z
  else
    ((r =? 0x1680) || inRange 0x2000 0x200A r || inRange 0x2028 0x2029 r
     || (r =? 0x202F) || (r =? 0x205F) || (r =? 0x3000))%Z.

(** [s[n:]] *)
Fixpoint sliceFrom (n : nat) (s : string) : string :=
  match n, s with
  | S k, String _ t => sliceFrom k t
  | _, _ => s
  end.

(** The rune loop of strings.TrimLeftFunc: runes are decoded from the left
    while [f] holds of them. Every turn consumes at least one byte, so
    [length s] turns are enough. *)
Fixpoint trimLeftLoop (turns : nat) (f : Z -> bool) (s : string) : string :=
  match turns with
  | O => s
  | S k =>
    match s with
    | EmptyString => EmptyString
    | _ =>
      let '(r, size) := DecodeRuneInString s in
      if f r then trimLeftLoop k f (sliceFrom size s) else s
    end
  end.

(** strings.TrimLeftFunc *)
Definition TrimLeftFunc (s : string) (f : Z -> bool) : string :=
  trimLeftLoop (String.length s) f s.

(** strings.HasPrefix *)
Definition HasPrefix (s pre : string) : bool := String.prefix pre s.

Definition newline : ascii := "010"%char.

(** strings.Split(s, "\n"): the pieces between newlines; never empty. *)
Fixpoint SplitLines (s : string) : list string :=
  match s with
  | EmptyString => [EmptyString]
  | String c t =>
    if Ascii.eqb c newline then EmptyString :: SplitLines t
    else
      match SplitLines t with
      | [] => [String c EmptyString]
      | l :: ls => String c l :: ls
      end
  end.

End Go.

(** ** The blank-document filter *)

(** The loop of [isEmptyYAML] over the lines of the document. *)
Fixpoint isEmptyYAML_lines (lines : list string) : bool :=
  match lines with
  | [] => true
  | line :: rest =>
    let trimmed := Go.TrimLeftFunc line Go.IsSpace in
    if negb (trimmed =? "") && negb (trimmed =? "---")
       && negb (trimmed =? "...") && negb (Go.HasPrefix trimmed "#")
    then false
    else isEmptyYAML_lines rest
  end.

Definition isEmptyYAML (y : string) : bool :=
  isEmptyYAML_lines (Go.SplitLines y).

(** ** Errors

    Go's [error] values that the parser can tell apart: the end-of-stream
    sentinel, the scheme's not-registered error, any other error, and an
    error wrapping another one under a message. A nil error is [None]. *)

Inductive error : Type :=
| EOF
| notRegisteredErr (schemeName kind : string)
| errorString (msg : string)
| wrapError (msg : string) (err : error).

Fixpoint error_eqb (a b : error) : bool :=
  match a, b with
  | EOF, EOF => true
  | notRegisteredErr s k, notRegisteredErr s' k' => (s =? s') && (k =? k')
  | errorString m, errorString m' => m =? m'
  | wrapError m e, wrapError m' e' => (m =? m') && error_eqb e e'
  | _, _ => false
  end.

(** Modelled from the spec: errors.Is of this repository's pkg/errors,
    whose source is not at hand, is the test for the end of the stream. It
    is taken to be Go's errors.Is: the error or one that it wraps equals
    the target. [isChain] is the walk along the wrapped errors of a
    non-nil error. *)
Fixpoint isChain (err target : error) : bool :=
  error_eqb err target
  || match err with
     | wrapError _ inner => isChain inner target
     | _ => false
     end.

(** errors.Is; a nil error is no target's match. *)
Definition Is (err : option error) (target : error) : bool :=
  match err with
  | None => false
  | Some e => isChain e target
  end.

(** runtime.IsNotRegisteredError: a type test on the error itself, with
    no unwrapping. *)
Definition IsNotRegisteredError (err : option error) : bool :=
  match err with
  | Some (notRegisteredErr _ _) => true
  | _ => false
  end.

(** Modelled from the spec: errors.Wrapf of this repository's pkg/errors,
    whose source is not at hand. The error is wrapped under the formatted
    message and stays reachable through the wrapper; a nil error stays nil. *)
Definition Wrapf (err : option error) (msg : string) : option error :=
  match err with
  | None => None
  | Some e => Some (wrapError msg e)
  end.

(** What a fallible call returns: a value, or a non-nil error. *)
Inductive result (A : Type) : Type :=
| Ok (a : A)
| Err (e : error).
Arguments Ok {A} a.
Arguments Err {A} e.

(** ** Observable calls

    The calls [Parse] makes on its collaborators, in program order. *)
Inductive Event : Type :=
| EvRead (r : result string)        (* yr.Read() returned r *)
| EvDecodeMeta (content : string)   (* dm.Decode(content, nil, nil) *)
| EvDecodeObj (content : string)    (* do.Decode(content, nil, nil) *)
| EvAnnotate (err : option error)   (* anno.Annotate() and errors.Wrapf(err, ...) *)
| EvClose.                          (* reader.Close() *)

(** The stream handed to [Parse]: [reads] lists what successive calls of
    the YAML reader's Read over it return, io.EOF following when the list
    is used up; [annotation] is present for an AnnotatedReadCloser and
    holds the "%+v" rendering of what Annotate() returns. *)
Record ReadCloser : Type := mkReadCloser {
  reads : list (result string);
  annotation : option string
}.

(** annotateErr annotates an error if the reader is an AnnotatedReadCloser. *)
Definition annotateErr (err : option error) (reader : ReadCloser)
  : option error * list Event :=
  match annotation reader with
  | Some anno => (Wrapf err anno, [EvAnnotate err])
  | None => (err, [])
  end.

Section Parser.

(** runtime.Object *)
Variable Object : Type.

(** Package is the set of metadata and objects in a package. *)
Record Package : Type := mkPackage {
  meta : list Object;
  objects : list Object
}.

Definition NewPackage : Package := {| meta := []; objects := [] |}.
Definition GetMeta (p : Package) : list Object := meta p.
Definition GetObjects (p : Package) : list Object := objects p.

(** A scheme is used only through the YAML serializer built on it, so it
    is modelled by that serializer's Decode. *)
Definition ObjectCreaterTyper : Type := string -> result Object.

Record PackageParser : Type := mkPackageParser {
  metaScheme : ObjectCreaterTyper;
  objScheme : ObjectCreaterTyper
}.

Definition New (meta obj : ObjectCreaterTyper) : PackageParser :=
  {| metaScheme := meta; objScheme := obj |}.

Definition Decode (scheme : ObjectCreaterTyper) (content : string)
  : result Object := scheme content.

(** What [Parse] hands back: the package, the error, and the calls made. *)
Definition Outcome : Type := Package * option error * list Event.

Definition after (evs : list Event) (r : Outcome) : Outcome :=
  let '(pkg, err, rest) := r in (pkg, err, evs ++ rest).

(** The [for] loop of [Parse], run over the reads still to come. *)
Fixpoint parseLoop (p : PackageParser) (reader : ReadCloser)
    (rs : list (result string)) (pkg : Package) : Outcome :=
  match rs with
  | [] => (pkg, None, [EvRead (Err EOF)])
  | r :: rs' =>
    match r with
    | Err err =>
      if negb (Is (Some err) EOF) then (pkg, Some err, [EvRead r])
      else (pkg, None, [EvRead r])
    | Ok content =>
      if isEmptyYAML content then
        after [EvRead r] (parseLoop p reader rs' pkg)
      else
        match Decode (metaScheme p) content with
        | Err err =>
          if negb (IsNotRegisteredError (Some err)) then
            let '(e, evs) := annotateErr (Some err) reader in
            (pkg, e, [EvRead r; EvDecodeMeta content] ++ evs)
          else
            match Decode (objScheme p) content with
            | Err err' =>
              let '(e, evs) := annotateErr (Some err') reader in
              (pkg, e, [EvRead r; EvDecodeMeta content; EvDecodeObj content] ++ evs)
            | Ok o =>
              after [EvRead r; EvDecodeMeta content; EvDecodeObj content]
                (parseLoop p reader rs'
                   {| meta := meta pkg; objects := objects pkg ++ [o] |})
            end
        | Ok m =>
          after [EvRead r; EvDecodeMeta content]
            (parseLoop p reader rs'
               {| meta := meta pkg ++ [m]; objects := objects pkg |})
        end
    end
  end.

(** Parse: a nil reader is [None]. The deferred Close runs last on every
    path that got past the nil test. *)
Definition Parse (p : PackageParser) (reader : option ReadCloser) : Outcome :=
  let pkg := NewPackage in
  match reader with
  | None => (pkg, None, [])
  | Some rc =>
    let '(pkg', err, evs) := parseLoop p rc (reads rc) pkg in
    (pkg', err, evs ++ [EvClose])
  end.

Definition pkgOf (r : Outcome) : Package := fst (fst r).
Definition errOf (r : Outcome) : option error := snd (fst r).
Definition callsOf (r : Outcome) : list Event := snd r.

(** ** Backends *)

(** kubernetes.Interface, afero.Fs and FilterFn are used as opaque values.
    A client is an interface value and can be nil: a client given or kept
    is an [option Client], nil being [None]. *)
Variable Client : Type.
Variable Fs : Type.
Variable FilterFn : Type.

Record PodLogBackend : Type := mkPodLogBackend {
  client : option Client;
  name : string;
  namespace : string
}.

Record FsBackend : Type := mkFsBackend {
  fs : Fs;
  dir : string;
  skips : list FilterFn
}.

Record EchoBackend : Type := mkEchoBackend {
  echo : string
}.

(** The implementations of the Backend interface. *)
Inductive Backend : Type :=
| APodLogBackend (pl : PodLogBackend)
| ANopBackend
| AnFsBackend (f : FsBackend)
| AnEchoBackend (e : EchoBackend).

(** BackendOption modifies the parser backend: the Go function mutates the
    backend it is given, here it returns the backend as it is afterwards. *)
Definition BackendOption : Type := Backend -> Backend.

Definition PodName (name' : string) : BackendOption :=
  fun p =>
    match p with
    | APodLogBackend pl =>
      APodLogBackend {| client := client pl; name := name'; namespace := namespace pl |}
    | _ => p
    end.

Definition PodNamespace (namespace' : string) : BackendOption :=
  fun p =>
    match p with
    | APodLogBackend pl =>
      APodLogBackend {| client := client pl; name := name pl; namespace := namespace' |}
    | _ => p
    end.

Definition PodClient (client' : option Client) : BackendOption :=
  fun p =>
    match p with
    | APodLogBackend pl =>
      APodLogBackend {| client := client'; name := name pl; namespace := namespace pl |}
    | _ => p
    end.

Definition FsDir (dir' : string) : BackendOption :=
  fun p =>
    match p with
    | AnFsBackend f => AnFsBackend {| fs := fs f; dir := dir'; skips := skips f |}
    | _ => p
    end.

Definition FsFilters (skips' : list FilterFn) : BackendOption :=
  fun p =>
    match p with
    | AnFsBackend f => AnFsBackend {| fs := fs f; dir := dir f; skips := skips' |}
    | _ => p
    end.

(** [for _, o := range bo { o(p) }] *)
Definition applyOptions (p : Backend) (bo : list BackendOption) : Backend :=
  fold_left (fun b o => o b) bo p.

Definition NewPodLogBackend (bo : list BackendOption) : Backend :=
  applyOptions (APodLogBackend {| client := None; name := ""; namespace := "" |}) bo.

Definition NewNopBackend (bo : list BackendOption) : Backend := ANopBackend.

Definition NewFsBackend (fs' : Fs) (bo : list BackendOption) : Backend :=
  applyOptions (AnFsBackend {| fs := fs'; dir := ""; skips := [] |}) bo.

Definition NewEchoBackend (echo' : string) : Backend :=
  AnEchoBackend {| echo := echo' |}.

(** NopBackend.Init: a nil reader and a nil error, whatever the options. *)
Definition NopBackend_Init (bo : list BackendOption)
  : option ReadCloser * option error := (None, None).

End Parser.

Arguments meta {Object} _.
Arguments objects {Object} _.
Arguments mkPackage {Object} _ _.
Arguments NewPackage {Object}.
Arguments GetMeta {Object} _.
Arguments GetObjects {Object} _.
Arguments metaScheme {Object} _.
Arguments objScheme {Object} _.
Arguments mkPackageParser {Object} _ _.
Arguments New {Object} _ _.
Arguments Decode {Object} _ _.
Arguments after {Object} _ _.
Arguments parseLoop {Object} _ _ _ _.
Arguments Parse {Object} _ _.
Arguments pkgOf {Object} _.
Arguments errOf {Object} _.
Arguments callsOf {Object} _.
Arguments PodName {Client Fs FilterFn} _ _.
Arguments PodNamespace {Client Fs FilterFn} _ _.
Arguments PodClient {Client Fs FilterFn} _ _.
Arguments FsDir {Client Fs FilterFn} _ _.
Arguments FsFilters {Client Fs FilterFn} _ _.
Arguments applyOptions {Client Fs FilterFn} _ _.
Arguments APodLogBackend {Client Fs FilterFn} _.
Arguments ANopBackend {Client Fs FilterFn}.
Arguments AnFsBackend {Client Fs FilterFn} _.
Arguments AnEchoBackend {Client Fs FilterFn} _.
Arguments NopBackend_Init {Client Fs FilterFn} _.
Arguments client {Client} _.
Arguments name {Client} _.
Arguments namespace {Client} _.
Arguments fs {Fs FilterFn} _.
Arguments dir {Fs FilterFn} _.
Arguments skips {Fs FilterFn} _.
Arguments mkFsBackend {Fs FilterFn} _ _ _.
Arguments mkPodLogBackend {Client} _ _ _.
Arguments NewPodLogBackend {Client Fs FilterFn} _.
Arguments NewNopBackend {Client Fs FilterFn} _.
Arguments NewFsBackend {Client Fs FilterFn} _ _.
Arguments NewEchoBackend {Client Fs FilterFn} _.

(** ** Vocabulary of the properties *)

Definition nl : string := String Go.newline EmptyString.

(** A line that does not make a document non-blank. *)
Definition blankLine (line : string) : Prop :=
  let trimmed := Go.TrimLeftFunc line Go.IsSpace in
  trimmed = "" \/ trimmed = "---" \/ trimmed = "..."
  \/ Go.HasPrefix trimmed "#" = true.

(** Strings of spaces and tabs. *)
Fixpoint blanks (s : string) : bool :=
  match s with
  | EmptyString => true
  | String c t => (Ascii.eqb c " " || Ascii.eqb c "009") && blanks t
  end.

(** The concrete variants of Backend, and the one each option targets. *)
Inductive Variant : Type := VPodLog | VNop | VFs | VEcho.

Definition variantOf {Client Fs FilterFn} (b : Backend Client Fs FilterFn) : Variant :=
  match b with
  | APodLogBackend _ => VPodLog
  | ANopBackend => VNop
  | AnFsBackend _ => VFs
  | AnEchoBackend _ => VEcho
  end.

Inductive OptionCall (Client FilterFn : Type) : Type :=
| CallPodName (name : string)
| CallPodNamespace (namespace : string)
| CallPodClient (client : option Client)
| CallFsDir (dir : string)
| CallFsFilters (skips : list FilterFn).
Arguments CallPodName {Client FilterFn} _.
Arguments CallPodNamespace {Client FilterFn} _.
Arguments CallPodClient {Client FilterFn} _.
Arguments CallFsDir {Client FilterFn} _.
Arguments CallFsFilters {Client FilterFn} _.

Definition optionOf {Client Fs FilterFn} (c : OptionCall Client FilterFn)
  : BackendOption Client Fs FilterFn :=
  match c with
  | CallPodName n => PodName n
  | CallPodNamespace n => PodNamespace n
  | CallPodClient k => PodClient k
  | CallFsDir d => FsDir d
  | CallFsFilters s => FsFilters s
  end.

Definition targetOf {Client FilterFn} (c : OptionCall Client FilterFn) : Variant :=
  match c with
  | CallPodName _ | CallPodNamespace _ | CallPodClient _ => VPodLog
  | CallFsDir _ | CallFsFilters _ => VFs
  end.

(** The documents a stream delivers before it ends or fails. *)
Fixpoint delivered (rs : list (result string)) : list string :=
  match rs with
  | Ok c :: rs' => c :: delivered rs'
  | _ => []
  end.

Definition nonBlank (docs : list string) : list string :=
  filter (fun c => negb (isEmptyYAML c)) docs.

(** A stream with its blank documents taken out. *)
Definition dropBlank (rs : list (result string)) : list (result string) :=
  filter (fun r => match r with Ok c => negb (isEmptyYAML c) | Err _ => true end) rs.

(** What the metadata scheme makes of the documents it recognizes. *)
Definition metaOf {Object} (p : PackageParser Object) (docs : list string)
  : list Object :=
  flat_map (fun c => match Decode (metaScheme p) c with
                     | Ok m => [m]
                     | Err _ => []
                     end) docs.

(** What the object scheme makes of the documents that the metadata scheme
    does not recognize. *)
Definition objectsOf {Object} (p : PackageParser Object) (docs : list string)
  : list Object :=
  flat_map (fun c => match Decode (metaScheme p) c with
                     | Ok _ => []
                     | Err _ => match Decode (objScheme p) c with
                                | Ok o => [o]
                                | Err _ => []
                                end
                     end) docs.

(** A placed document sits in exactly one of the two lists. *)
Definition placedOnce {Object} (p : PackageParser Object) (c : string) : Prop :=
  List.length (metaOf p [c]) + List.length (objectsOf p [c]) = 1.

(** Document [c] fails to decode, with error [e]: the metadata scheme fails
    on it otherwise than by not knowing its kind, or it does not know its
    kind and the object scheme fails. *)
Definition rejects {Object} (p : PackageParser Object) (c : string) (e : error)
  : Prop :=
  (Decode (metaScheme p) c = Err e /\ IsNotRegisteredError (Some e) = false)
  \/ (exists e0, Decode (metaScheme p) c = Err e0
                 /\ IsNotRegisteredError (Some e0) = true
                 /\ Decode (objScheme p) c = Err e).

(** The errors that were handed to the annotator, in call order. *)
Fixpoint annotated (calls : list Event) : list (option error) :=
  match calls with
  | [] => []
  | EvAnnotate err :: rest => err :: annotated rest
  | _ :: rest => annotated rest
  end.

(** The decode calls among the calls made. *)
Definition isDecode (ev : Event) : bool :=
  match ev with
  | EvDecodeMeta _ | EvDecodeObj _ => true
  | _ => false
  end.

(** A stream newly opened over the bytes [b]. The YAML reader belongs to
    k8s.io/apimachinery: [yamlDocs b] stands for what its successive Reads
    return over a stream that delivers [b] without a read failure. *)
Definition openStream (yamlDocs : string -> list (result string))
    (b : string) (anno : option string) : ReadCloser :=
  {| reads := yamlDocs b; annotation := anno |}.

(** Document [c] gets through the loop: it is blank, or the metadata
    scheme decodes it, or the metadata scheme does not know its kind and
    the object scheme decodes it. *)
Definition decodes {Object} (p : PackageParser Object) (c : string) : Prop :=
  isEmptyYAML c = true
  \/ (exists m, Decode (metaScheme p) c = Ok m)
  \/ (exists e o, Decode (metaScheme p) c = Err e
                   /\ IsNotRegisteredError (Some e) = true
                   /\ Decode (objScheme p) c = Ok o).

(** The read [bad] of the stream [rc] makes the parse fail, with [err] as
    the error to return: a read failure that is not the end of the stream,
    returned as it is; or a non-blank document that fails to decode, its
    error wrapped in the annotation of the stream when it has one. *)
Definition failsAt {Object} (p : PackageParser Object) (rc : ReadCloser)
    (bad : result string) (err : option error) : Prop :=
  match bad with
  | Err e => Is (Some e) EOF = false /\ err = Some e
  | Ok c =>
    isEmptyYAML c = false
    /\ exists e, rejects p c e
                 /\ err = match annotation rc with
                          | Some a => Some (wrapError a e)
                          | None => Some e
                          end
  end.

(** Strings of ASCII white space other than the newline: space, tab,
    vertical tab, form feed, carriage return. *)
Fixpoint spaces (s : string) : bool :=
  match s with
  | EmptyString => true
  | String c t =>
    (Ascii.eqb c " " || Ascii.eqb c "009" || Ascii.eqb c "011"
     || Ascii.eqb c "012" || Ascii.eqb c "013")
    && spaces t
  end.

(** Schemes and streams used in the examples: the metadata scheme knows
    kind Foo, the object scheme kind Bar. *)
Module Fixtures.

Definition metaFoo : ObjectCreaterTyper string :=
  fun c =>
    if String.eqb c "kind: Foo" then Ok "Foo"
    else if String.eqb c "kind: Foo:" then Err (errorString "yaml: mapping values are not allowed in this context")
    else Err (notRegisteredErr "meta" c).

Definition objBar : ObjectCreaterTyper string :=
  fun c =>
    if String.eqb c "kind: Bar" then Ok "Bar"
    else Err (notRegisteredErr "objects" c).

Definition parser : PackageParser string := New metaFoo objBar.

End Fixtures.

(** ** Opening a backend

    What [Init] hands back: its two results, or a panic (a method called
    on a nil interface value). *)
Inductive InitOutcome : Type :=
| Returned (reader : option ReadCloser) (err : option error)
| Panicked.

Section Init.

Context {Client Fs FilterFn : Type}.

(** [client.CoreV1().Pods(namespace).GetLogs(name, &corev1.PodLogOptions{})
    .Stream(ctx)] of client-go, as its two results. *)
Variable streamLogs : Client -> string -> string -> option ReadCloser * option error.

(** NewFsReadCloser of this package (its file is not at hand), as its two
    results seen through io.ReadCloser. *)
Variable NewFsReadCloser : Fs -> string -> list FilterFn -> option ReadCloser * option error.

(** The YAML reader over the bytes of a string, as in [openStream]. *)
Variable yamlDocs : string -> list (result string).

(** The body of each [Init] after its loop over the options. *)
Definition openSource (p : Backend Client Fs FilterFn) : InitOutcome :=
  match p with
  | APodLogBackend pl =>
    match client pl with
    | None => Panicked
    | Some k =>
      let '(reader, err) := streamLogs k (namespace pl) (name pl) in
      match err with
      | Some e => Returned None (Some e)
      | None => Returned reader None
      end
    end
  | ANopBackend => Returned None None
  | AnFsBackend f =>
    let '(reader, err) := NewFsReadCloser (fs f) (dir f) (skips f) in
    Returned reader err
  | AnEchoBackend e => Returned (Some (openStream yamlDocs (echo e) None)) None
  end.

(** Backend.Init, by the variant of the receiver: the backend as the
    options leave it, and the outcome. NopBackend.Init does not run the
    options. An option is handed the receiver itself, so it cannot make it
    a backend of another variant. *)
Definition Init (p : Backend Client Fs FilterFn)
    (bo : list (BackendOption Client Fs FilterFn))
  : Backend Client Fs FilterFn * InitOutcome :=
  match p with
  | ANopBackend => (p, Returned None None)
  | _ => let p' := applyOptions p bo in (p', openSource p')
  end.

End Init.

(** The options that the package's constructors build, turned into
    options, and the fields that a list of them sets last. *)
Definition optionsOf {Client Fs FilterFn} (calls : list (OptionCall Client FilterFn))
  : list (BackendOption Client Fs FilterFn) :=
  map optionOf calls.

Definition sameField {Client FilterFn} (c1 c2 : OptionCall Client FilterFn) : bool :=
  match c1, c2 with
  | CallPodName _, CallPodName _ => true
  | CallPodNamespace _, CallPodNamespace _ => true
  | CallPodClient _, CallPodClient _ => true
  | CallFsDir _, CallFsDir _ => true
  | CallFsFilters _, CallFsFilters _ => true
  | _, _ => false
  end.

Fixpoint lastPodName {Client FilterFn} (calls : list (OptionCall Client FilterFn))
    (d : string) : string :=
  match calls with
  | [] => d
  | CallPodName n :: rest => lastPodName rest n
  | _ :: rest => lastPodName rest d
  end.

Fixpoint lastPodNamespace {Client FilterFn} (calls : list (OptionCall Client FilterFn))
    (d : string) : string :=
  match calls with
  | [] => d
  | CallPodNamespace n :: rest => lastPodNamespace rest n
  | _ :: rest => lastPodNamespace rest d
  end.

Fixpoint lastPodClient {Client FilterFn} (calls : list (OptionCall Client FilterFn))
    (d : option Client) : option Client :=
  match calls with
  | [] => d
  | CallPodClient k :: rest => lastPodClient rest k
  | _ :: rest => lastPodClient rest d
  end.

Fixpoint lastFsDir {Client FilterFn} (calls : list (OptionCall Client FilterFn))
    (d : string) : string :=
  match calls with
  | [] => d
  | CallFsDir n :: rest => lastFsDir rest n
  | _ :: rest => lastFsDir rest d
  end.

Fixpoint lastFsFilters {Client FilterFn} (calls : list (OptionCall Client FilterFn))
    (d : list FilterFn) : list FilterFn :=
  match calls with
  | [] => d
  | CallFsFilters s :: rest => lastFsFilters rest s
  | _ :: rest => lastFsFilters rest d
  end.

(** The reads among the calls made, in order. *)
Fixpoint readsOf (calls : list Event) : list (result string) :=
  match calls with
  | [] => []
  | EvRead r :: rest => r :: readsOf rest
  | _ :: rest => readsOf rest
  end.

(** ** The recorder of managed resource state (package managed)

    The gauges are kept as maps from label values to the value last set.
    The counters of [Record] are float64 in the source and only ever
    incremented by one from zero, which is exact below 2^53; they are
    natural numbers here. *)
Module Managed.

(** xpv1.Condition: [Record] reads its Type and Status only. Both are
    string types. *)
Record Condition : Type := mkCondition {
  Type_ : string;
  Status : string
}.

Definition GaugeVec : Type := string -> option nat.

(** [g.WithLabelValues(label).Set(v)] *)
Definition SetGauge (g : GaugeVec) (label : string) (v : nat) : GaugeVec :=
  fun l => if String.eqb l label then Some v else g l.

Record MRStateRecorder : Type := mkMRStateRecorder {
  mrExists : GaugeVec;
  mrReady : GaugeVec;
  mrSynced : GaugeVec
}.

Section Recorder.

(** An item of the list, schema.GroupVersionKind. *)
Variable Item : Type.
Variable GroupVersionKind : Type.

(** xpv1.TypeReady, xpv1.TypeSynced and corev1.ConditionTrue: constants
    declared outside the files at hand. *)
Variable TypeReady TypeSynced ConditionTrue : string.

(** [r.client.List(ctx, l)] for a list of the given kind: the items, or
    the error. *)
Variable list_ : GroupVersionKind -> result (list Item).

(** [fieldpath.Pave(o.Object).GetValueInto("status", &conditioned)]: the
    conditions read, or the error. *)
Variable conditionsOf : Item -> result (list Condition).

(** [gvk.String()] *)
Variable gvkString : GroupVersionKind -> string.

(** The loop over the conditions of one item. *)
Fixpoint countConditions (conditions : list Condition) (numReady numSynced : nat)
  : nat * nat :=
  match conditions with
  | [] => (numReady, numSynced)
  | condition :: rest =>
    if String.eqb (Type_ condition) TypeReady
       && String.eqb (Status condition) ConditionTrue
    then countConditions rest (S numReady) numSynced
    else if String.eqb (Type_ condition) TypeSynced
            && String.eqb (Status condition) ConditionTrue
    then countConditions rest numReady (S numSynced)
    else countConditions rest numReady numSynced
  end.

(** The loop over the items; the errors logged are returned with the
    counters. *)
Fixpoint countItems (items : list Item) (numReady numSynced : nat)
    (logged : list error) : nat * nat * list error :=
  match items with
  | [] => (numReady, numSynced, logged)
  | o :: rest =>
    match conditionsOf o with
    | Err err => countItems rest numReady numSynced (logged ++ [err])
    | Ok conditions =>
      let '(numReady', numSynced') := countConditions conditions numReady numSynced in
      countItems rest numReady' numSynced' logged
    end
  end.

(** Record records the state of managed resources: the recorder
    afterwards and the errors logged. *)
Definition Record_ (r : MRStateRecorder) (gvk : GroupVersionKind)
  : MRStateRecorder * list error :=
  match list_ gvk with
  | Err err => (r, [err])
  | Ok items =>
    let label := gvkString gvk in
    let exists_ := SetGauge (mrExists r) label (List.length items) in
    let '(numReady, numSynced, logged) := countItems items 0 0 [] in
    ({| mrExists := exists_;
        mrReady := SetGauge (mrReady r) label numReady;
        mrSynced := SetGauge (mrSynced r) label numSynced |}, logged)
  end.

End Recorder.

(** A condition that counts as ready, as synced. *)
Definition isReady (TypeReady ConditionTrue : string) (c : Condition) : bool :=
  String.eqb (Type_ c) TypeReady && String.eqb (Status c) ConditionTrue.

Definition isSynced (TypeSynced ConditionTrue : string) (c : Condition) : bool :=
  String.eqb (Type_ c) TypeSynced && String.eqb (Status c) ConditionTrue.

(** The conditions of the items whose status can be read. *)
Definition readable {Item : Type} (conditionsOf : Item -> result (list Condition))
    (items : list Item) : list Condition :=
  flat_map (fun o => match conditionsOf o with
                     | Ok conditions => conditions
                     | Err _ => []
                     end) items.

(** The errors of the items whose status cannot be read, in list order. *)
Definition failures {Item : Type} (conditionsOf : Item -> result (list Condition))
    (items : list Item) : list error :=
  flat_map (fun o => match conditionsOf o with
                     | Ok _ => []
                     | Err err => [err]
                     end) items.

End Managed.

(** A cluster used in the examples of the recorder: three buckets, the
    status of the last of which cannot be read. *)
Module RecorderFixtures.

Definition Item : Type := option (list Managed.Condition).

Definition conditionsOf (o : Item) : result (list Managed.Condition) :=
  match o with
  | Some conditions => Ok conditions
  | None => Err (errorString "status: not an object")
  end.

Definition buckets : list Item :=
  [Some [Managed.mkCondition "Ready" "True"; Managed.mkCondition "Synced" "True"];
   Some [Managed.mkCondition "Ready" "False"; Managed.mkCondition "Synced" "True"];
   None].

Definition listBuckets (gvk : string) : result (list Item) := Ok buckets.

Definition listNothing (gvk : string) : result (list Item) := Ok [].

Definition gvkString (gvk : string) : string := gvk.

Definition fresh : Managed.MRStateRecorder :=
  {| Managed.mrExists := fun _ => None;
     Managed.mrReady := fun _ => None;
     Managed.mrSynced := fun _ => None |}.

Definition record (list_ : string -> result (list Item))
    (r : Managed.MRStateRecorder) (gvk : string)
  : Managed.MRStateRecorder * list error :=
  Managed.Record_ Item string "Ready" "Synced" "True" list_ conditionsOf gvkString r gvk.

End RecorderFixtures.

(** * Properties *)

(** ** The blank-document filter *)

Example isEmptyYAML_separators_and_comments :
  isEmptyYAML ("---" ++ nl ++ "  # c" ++ nl ++ "..." ++ nl)%string = true.
Proof. reflexivity. Qed.

Example isEmptyYAML_content :
  isEmptyYAML ("---" ++ nl ++ "kind: Foo")%string = false.
Proof. reflexivity. Qed.

(* U+00A0 (C2 A0) and U+3000 (E3 80 80) are white space; a lone C2 is not. *)
Example isEmptyYAML_nbsp :
  isEmptyYAML (String (ascii_of_nat 194) (String (ascii_of_nat 160) "---")) = true.
Proof. reflexivity. Qed.

Example isEmptyYAML_ideographic_space :
  isEmptyYAML (String (ascii_of_nat 227) (String (ascii_of_nat 128)
                 (String (ascii_of_nat 128) "#x"))) = true.
Proof. reflexivity. Qed.

Example isEmptyYAML_truncated_rune :
  isEmptyYAML (String (ascii_of_nat 194) "---") = false.
Proof. reflexivity. Qed.

(** The turns given to the rune loop of TrimLeftFunc are enough: more
    turns change nothing. *)
Lemma DecodeRuneInString_size (c : ascii) (t : string) :
  1 <= snd (Go.DecodeRuneInString (String c t)).
Proof.
  unfold Go.DecodeRuneInString.
  repeat match goal with
         | |- context [if ?b then _ else _] => destruct b
         | |- context [match ?x with _ => _ end] => destruct x
         end; cbn [snd]; lia.
Qed.

Lemma sliceFrom_shorter (n : nat) (c : ascii) (t : string) :
  1 <= n ->
  String.length (Go.sliceFrom n (String c t)) <= String.length t.
Proof.
  intros H. destruct n as [|n]; [lia|]. cbn [Go.sliceFrom]. clear H.
  revert t. induction n as [|n IH]; intros t.
  - destruct t; cbn; lia.
  - destruct t as [|c' t]; cbn [Go.sliceFrom String.length]; [lia|].
    specialize (IH t). lia.
Qed.

Lemma trimLeftLoop_turns_enough (f : Z -> bool) (n : nat) :
  forall m s,
  String.length s <= n ->
  String.length s <= m ->
  Go.trimLeftLoop n f s = Go.trimLeftLoop m f s.
Proof.
  induction n as [|n IH]; intros m s Hn Hm.
  - destruct s; [|cbn in Hn; lia]. destruct m; reflexivity.
  - destruct s as [|c t]; [destruct m; reflexivity|].
    destruct m as [|m]; [cbn in Hm; lia|].
    cbn [Go.trimLeftLoop].
    pose proof (DecodeRuneInString_size c t) as Sz.
    destruct (Go.DecodeRuneInString (String c t)) as [r size].
    cbn [snd] in Sz.
    destruct (f r); [|reflexivity].
    pose proof (sliceFrom_shorter size c t Sz).
    cbn [String.length] in Hn, Hm.
    apply IH; lia.
Qed.

Lemma blankLine_test (line : string) :
  let trimmed := Go.TrimLeftFunc line Go.IsSpace in
  negb (trimmed =? "") && negb (trimmed =? "---")
  && negb (trimmed =? "...") && negb (Go.HasPrefix trimmed "#") = false
  <-> blankLine line.
Proof.
  unfold blankLine; cbv zeta.
  set (t := Go.TrimLeftFunc line Go.IsSpace).
  destruct (String.eqb_spec t "") as [E1|N1]; cbn [negb andb].
  { split; auto. }
  destruct (String.eqb_spec t "---") as [E2|N2]; cbn [negb andb].
  { split; auto. }
  destruct (String.eqb_spec t "...") as [E3|N3]; cbn [negb andb].
  { split; auto. }
  destruct (Go.HasPrefix t "#") eqn:HP; cbn [negb].
  - split; auto.
  - split; [discriminate|].
    intros [H|[H|[H|H]]]; congruence.
Qed.

Lemma isEmptyYAML_lines_Forall (lines : list string) :
  isEmptyYAML_lines lines = true <-> Forall blankLine lines.
Proof.
  induction lines as [|line rest IH]; cbn [isEmptyYAML_lines].
  - split; auto.
  - pose proof (blankLine_test line) as T; cbv zeta in T.
    destruct (negb (Go.TrimLeftFunc line Go.IsSpace =? "")
              && negb (Go.TrimLeftFunc line Go.IsSpace =? "---")
              && negb (Go.TrimLeftFunc line Go.IsSpace =? "...")
              && negb (Go.HasPrefix (Go.TrimLeftFunc line Go.IsSpace) "#")) eqn:C.
    + split; [discriminate|].
      intros F. inversion F as [|? ? B _]; subst.
      apply T in B. discriminate.
    + rewrite IH. split.
      * intros F. constructor; [apply T; reflexivity|exact F].
      * intros F. inversion F; assumption.
Qed.

Lemma isEmptyYAML_blank_lines (y : string) :
  isEmptyYAML y = true <-> Forall blankLine (Go.SplitLines y).
Proof. apply isEmptyYAML_lines_Forall. Qed.

(** ** The decoding loop *)

Section Loop.

Context {Object : Type}.
Variable p : PackageParser Object.
Variable rc : ReadCloser.

Lemma pkgOf_after (evs : list Event) (r : Outcome Object) :
  pkgOf (after evs r) = pkgOf r.
Proof. destruct r as [[? ?] ?]; reflexivity. Qed.

Lemma errOf_after (evs : list Event) (r : Outcome Object) :
  errOf (after evs r) = errOf r.
Proof. destruct r as [[? ?] ?]; reflexivity. Qed.

Lemma callsOf_after (evs : list Event) (r : Outcome Object) :
  callsOf (after evs r) = evs ++ callsOf r.
Proof. destruct r as [[? ?] ?]; reflexivity. Qed.

Lemma annotateErr_fst (e : option error) :
  fst (annotateErr e rc)
  = match annotation rc with Some a => Wrapf e a | None => e end.
Proof. unfold annotateErr; destruct (annotation rc); reflexivity. Qed.

Lemma annotateErr_snd (e : option error) :
  snd (annotateErr e rc)
  = match annotation rc with Some _ => [EvAnnotate e] | None => [] end.
Proof. unfold annotateErr; destruct (annotation rc); reflexivity. Qed.

(** One turn of the loop, case by case. *)
Lemma parseLoop_nil (pkg : Package Object) :
  parseLoop p rc [] pkg = (pkg, None, [EvRead (Err EOF)]).
Proof. reflexivity. Qed.

Lemma parseLoop_read_err (e : error) rs (pkg : Package Object) :
  parseLoop p rc (Err e :: rs) pkg
  = (pkg, if Is (Some e) EOF then None else Some e, [EvRead (Err e)]).
Proof. cbn [parseLoop]. destruct (Is (Some e) EOF); reflexivity. Qed.

Lemma parseLoop_blank c rs (pkg : Package Object) :
  isEmptyYAML c = true ->
  parseLoop p rc (Ok c :: rs) pkg = after [EvRead (Ok c)] (parseLoop p rc rs pkg).
Proof. intros H. cbn [parseLoop]. rewrite H. reflexivity. Qed.

Lemma parseLoop_meta c m rs (pkg : Package Object) :
  isEmptyYAML c = false ->
  Decode (metaScheme p) c = Ok m ->
  parseLoop p rc (Ok c :: rs) pkg
  = after [EvRead (Ok c); EvDecodeMeta c]
      (parseLoop p rc rs {| meta := meta pkg ++ [m]; objects := objects pkg |}).
Proof. intros H M. cbn [parseLoop]. rewrite H, M. reflexivity. Qed.

Lemma parseLoop_meta_fail c e rs (pkg : Package Object) :
  isEmptyYAML c = false ->
  Decode (metaScheme p) c = Err e ->
  IsNotRegisteredError (Some e) = false ->
  parseLoop p rc (Ok c :: rs) pkg
  = (pkg, fst (annotateErr (Some e) rc),
     [EvRead (Ok c); EvDecodeMeta c] ++ snd (annotateErr (Some e) rc)).
Proof.
  intros H M N. cbn [parseLoop]. rewrite H, M, N. cbn [negb].
  destruct (annotateErr (Some e) rc); reflexivity.
Qed.

Lemma parseLoop_obj c e o rs (pkg : Package Object) :
  isEmptyYAML c = false ->
  Decode (metaScheme p) c = Err e ->
  IsNotRegisteredError (Some e) = true ->
  Decode (objScheme p) c = Ok o ->
  parseLoop p rc (Ok c :: rs) pkg
  = after [EvRead (Ok c); EvDecodeMeta c; EvDecodeObj c]
      (parseLoop p rc rs {| meta := meta pkg; objects := objects pkg ++ [o] |}).
Proof. intros H M N O. cbn [parseLoop]. rewrite H, M, N, O. reflexivity. Qed.

Lemma parseLoop_obj_fail c e e' rs (pkg : Package Object) :
  isEmptyYAML c = false ->
  Decode (metaScheme p) c = Err e ->
  IsNotRegisteredError (Some e) = true ->
  Decode (objScheme p) c = Err e' ->
  parseLoop p rc (Ok c :: rs) pkg
  = (pkg, fst (annotateErr (Some e') rc),
     [EvRead (Ok c); EvDecodeMeta c; EvDecodeObj c] ++ snd (annotateErr (Some e') rc)).
Proof.
  intros H M N O. cbn [parseLoop]. rewrite H, M, N, O. cbn [negb].
  destruct (annotateErr (Some e') rc); reflexivity.
Qed.

End Loop.

(** Case analysis on the first turn of [parseLoop p rc (r :: rs) pkg]: the
    goal is rewritten with the equation of the case, and the facts that
    select the case are left in the context. *)
Ltac loop_turn p rc r rs pkg :=
  let c := fresh "c" in
  let e := fresh "e" in
  let HB := fresh "HB" in
  let HM := fresh "HM" in
  let HN := fresh "HN" in
  let HO := fresh "HO" in
  destruct r as [c|e];
  [ destruct (isEmptyYAML c) eqn:HB;
    [ rewrite (parseLoop_blank p rc c rs pkg HB)
    | let m := fresh "m" in
      let em := fresh "em" in
      destruct (Decode (metaScheme p) c) as [m|em] eqn:HM;
      [ rewrite (parseLoop_meta p rc c m rs pkg HB HM)
      | destruct (IsNotRegisteredError (Some em)) eqn:HN;
        [ let o := fresh "o" in
          let eo := fresh "eo" in
          destruct (Decode (objScheme p) c) as [o|eo] eqn:HO;
          [ rewrite (parseLoop_obj p rc c em o rs pkg HB HM HN HO)
          | rewrite (parseLoop_obj_fail p rc c em eo rs pkg HB HM HN HO) ]
        | rewrite (parseLoop_meta_fail p rc c em rs pkg HB HM HN) ] ] ]
  | rewrite (parseLoop_read_err p rc e rs pkg) ].

Section Classification.

Context {Object : Type}.
Variable p : PackageParser Object.
Variable rc : ReadCloser.

Lemma metaOf_cons c docs :
  metaOf p (c :: docs) = metaOf p [c] ++ metaOf p docs.
Proof. unfold metaOf; cbn [flat_map]. rewrite app_nil_r. reflexivity. Qed.

Lemma objectsOf_cons c docs :
  objectsOf p (c :: docs) = objectsOf p [c] ++ objectsOf p docs.
Proof. unfold objectsOf; cbn [flat_map]. rewrite app_nil_r. reflexivity. Qed.

Lemma nonBlank_cons_blank c docs :
  isEmptyYAML c = true -> nonBlank (c :: docs) = nonBlank docs.
Proof. intros H. unfold nonBlank; cbn [filter]. rewrite H. reflexivity. Qed.

Lemma nonBlank_cons_doc c docs :
  isEmptyYAML c = false -> nonBlank (c :: docs) = c :: nonBlank docs.
Proof. intros H. unfold nonBlank; cbn [filter]. rewrite H. reflexivity. Qed.

Lemma parseLoop_placed (rs : list (result string)) :
  forall pkg : Package Object,
  let out := parseLoop p rc rs pkg in
  exists placed rest,
    nonBlank (delivered rs) = placed ++ rest
    /\ meta (pkgOf out) = meta pkg ++ metaOf p placed
    /\ objects (pkgOf out) = objects pkg ++ objectsOf p placed
    /\ Forall (placedOnce p) placed
    /\ (errOf out = None -> rest = [])
    /\ (forall bad rest', rest = bad :: rest' ->
          exists e, rejects p bad e
                    /\ errOf out = fst (annotateErr (Some e) rc)).
Proof.
  induction rs as [|r rs IH]; intros pkg; cbv zeta.
  - exists [], []. cbn. rewrite !app_nil_r.
    repeat split; auto. discriminate.
  - loop_turn p rc r rs pkg; cbn [delivered].
    + (* blank *)
      rewrite pkgOf_after, errOf_after, (nonBlank_cons_blank _ _ HB).
      apply IH.
    + (* metadata *)
      rewrite pkgOf_after, errOf_after, (nonBlank_cons_doc _ _ HB).
      destruct (IH {| meta := meta pkg ++ [m]; objects := objects pkg |})
        as (placed & rest & E & M & O & F & S & R).
      cbn [meta objects] in M, O.
      assert (M1 : metaOf p [c] = [m]).
      { unfold metaOf; cbn [flat_map]. rewrite HM. reflexivity. }
      assert (O1 : objectsOf p [c] = []).
      { unfold objectsOf; cbn [flat_map]. rewrite HM. reflexivity. }
      exists (c :: placed), rest.
      rewrite metaOf_cons, objectsOf_cons, M1, O1, M, O, E, <- app_assoc.
      repeat split; auto.
      constructor; [|exact F]. unfold placedOnce. rewrite M1, O1. reflexivity.
    + (* objects *)
      rewrite pkgOf_after, errOf_after, (nonBlank_cons_doc _ _ HB).
      destruct (IH {| meta := meta pkg; objects := objects pkg ++ [o] |})
        as (placed & rest & E & M & O & F & S & R).
      cbn [meta objects] in M, O.
      assert (M1 : metaOf p [c] = []).
      { unfold metaOf; cbn [flat_map]. rewrite HM. reflexivity. }
      assert (O1 : objectsOf p [c] = [o]).
      { unfold objectsOf; cbn [flat_map]. rewrite HM, HO. reflexivity. }
      exists (c :: placed), rest.
      rewrite metaOf_cons, objectsOf_cons, M1, O1, M, O, E, <- app_assoc.
      repeat split; auto.
      constructor; [|exact F]. unfold placedOnce. rewrite M1, O1. reflexivity.
    + (* neither scheme decodes it *)
      rewrite (nonBlank_cons_doc _ _ HB).
      exists [], (c :: nonBlank (delivered rs)). cbn [pkgOf errOf fst snd].
      cbn [metaOf objectsOf flat_map app]. rewrite !app_nil_r.
      repeat split; auto.
      * rewrite annotateErr_fst. destruct (annotation rc); discriminate.
      * intros bad rest' Hb. injection Hb as <- <-.
        exists eo. split; [|reflexivity]. right. exists em. auto.
    + (* the metadata scheme fails otherwise *)
      rewrite (nonBlank_cons_doc _ _ HB).
      exists [], (c :: nonBlank (delivered rs)). cbn [pkgOf errOf fst snd].
      cbn [metaOf objectsOf flat_map app]. rewrite !app_nil_r.
      repeat split; auto.
      * rewrite annotateErr_fst. destruct (annotation rc); discriminate.
      * intros bad rest' Hb. injection Hb as <- <-.
        exists em. split; [|reflexivity]. left. auto.
    + (* read failure or end of stream *)
      exists [], []. cbn. rewrite !app_nil_r.
      repeat split; auto. discriminate.
Qed.

End Classification.

(** The cases of a turn on a delivered document [c], without rewriting. *)
Ltac doc_cases p c :=
  let HB := fresh "HB" in
  let HM := fresh "HM" in
  let HN := fresh "HN" in
  let HO := fresh "HO" in
  let m := fresh "m" in
  let em := fresh "em" in
  let o := fresh "o" in
  let eo := fresh "eo" in
  destruct (isEmptyYAML c) eqn:HB;
  [ | destruct (Decode (metaScheme p) c) as [m|em] eqn:HM;
      [ | destruct (IsNotRegisteredError (Some em)) eqn:HN;
          [ destruct (Decode (objScheme p) c) as [o|eo] eqn:HO | ] ] ].

Section Prefix.

Context {Object : Type}.
Variable p : PackageParser Object.
Variable rc : ReadCloser.

Lemma annotateErr_some (e : error) : fst (annotateErr (Some e) rc) <> None.
Proof. rewrite annotateErr_fst. destruct (annotation rc); discriminate. Qed.

(** A stream that starts with documents the loop gets through is parsed as
    those documents, then the rest from the package reached. *)
Lemma parseLoop_prefix (docs : list string) (rs : list (result string)) :
  forall pkg : Package Object,
  errOf (parseLoop p rc (map Ok docs) pkg) = None ->
  pkgOf (parseLoop p rc (map Ok docs ++ rs) pkg)
  = pkgOf (parseLoop p rc rs (pkgOf (parseLoop p rc (map Ok docs) pkg)))
  /\ errOf (parseLoop p rc (map Ok docs ++ rs) pkg)
     = errOf (parseLoop p rc rs (pkgOf (parseLoop p rc (map Ok docs) pkg))).
Proof.
  induction docs as [|c docs IH]; intros pkg; cbn [map app].
  - intros _. rewrite parseLoop_nil. split; reflexivity.
  - doc_cases p c.
    + rewrite !(parseLoop_blank p rc c _ pkg HB), !pkgOf_after, !errOf_after.
      apply IH.
    + rewrite !(parseLoop_meta p rc c m _ pkg HB HM), !pkgOf_after, !errOf_after.
      apply IH.
    + rewrite !(parseLoop_obj p rc c em o _ pkg HB HM HN HO),
        !pkgOf_after, !errOf_after.
      apply IH.
    + rewrite (parseLoop_obj_fail p rc c em eo _ pkg HB HM HN HO).
      cbn [errOf fst snd]. intros H. apply annotateErr_some in H. contradiction.
    + rewrite (parseLoop_meta_fail p rc c em _ pkg HB HM HN).
      cbn [errOf fst snd]. intros H. apply annotateErr_some in H. contradiction.
Qed.

(** When the loop ends in an error, the stream splits into documents the
    loop got through and the read it failed at, and the package is the one
    those documents alone produce. *)
Lemma parseLoop_partial (rs : list (result string)) :
  forall pkg : Package Object,
  errOf (parseLoop p rc rs pkg) <> None ->
  exists docs bad post,
    rs = map Ok docs ++ bad :: post
    /\ errOf (parseLoop p rc (map Ok docs) pkg) = None
    /\ pkgOf (parseLoop p rc (map Ok docs) pkg) = pkgOf (parseLoop p rc rs pkg).
Proof.
  induction rs as [|r rs IH]; intros pkg.
  - rewrite parseLoop_nil. cbn. congruence.
  - destruct r as [c|e].
    + doc_cases p c.
      * rewrite (parseLoop_blank p rc c rs pkg HB), pkgOf_after, errOf_after.
        intros H. destruct (IH pkg H) as (docs & bad & post & E & N & P).
        exists (c :: docs), bad, post. cbn [map app].
        rewrite (parseLoop_blank p rc c _ pkg HB), pkgOf_after, errOf_after.
        subst rs. auto.
      * rewrite (parseLoop_meta p rc c m rs pkg HB HM), pkgOf_after, errOf_after.
        intros H. destruct (IH _ H) as (docs & bad & post & E & N & P).
        exists (c :: docs), bad, post. cbn [map app].
        rewrite (parseLoop_meta p rc c m _ pkg HB HM), pkgOf_after, errOf_after.
        subst rs. auto.
      * rewrite (parseLoop_obj p rc c em o rs pkg HB HM HN HO),
          pkgOf_after, errOf_after.
        intros H. destruct (IH _ H) as (docs & bad & post & E & N & P).
        exists (c :: docs), bad, post. cbn [map app].
        rewrite (parseLoop_obj p rc c em o _ pkg HB HM HN HO),
          pkgOf_after, errOf_after.
        subst rs. auto.
      * rewrite (parseLoop_obj_fail p rc c em eo rs pkg HB HM HN HO).
        intros _. exists [], (Ok c), rs. cbn [map app].
        rewrite parseLoop_nil. auto.
      * rewrite (parseLoop_meta_fail p rc c em rs pkg HB HM HN).
        intros _. exists [], (Ok c), rs. cbn [map app].
        rewrite parseLoop_nil. auto.
    + intros _. exists [], (Err e), rs. cbn [map app].
      rewrite parseLoop_nil, parseLoop_read_err. auto.
Qed.

(** The package and the presence of an error do not depend on the
    annotation of the stream. *)
Lemma parseLoop_annotation_free (rc' : ReadCloser) (rs : list (result string)) :
  forall pkg : Package Object,
  pkgOf (parseLoop p rc rs pkg) = pkgOf (parseLoop p rc' rs pkg)
  /\ (errOf (parseLoop p rc rs pkg) = None
      <-> errOf (parseLoop p rc' rs pkg) = None)
  /\ filter isDecode (callsOf (parseLoop p rc rs pkg))
     = filter isDecode (callsOf (parseLoop p rc' rs pkg)).
Proof.
  induction rs as [|r rs IH]; intros pkg.
  - rewrite !parseLoop_nil. cbn. tauto.
  - destruct r as [c|e].
    + doc_cases p c.
      * rewrite !(parseLoop_blank p _ c rs pkg HB),
          !pkgOf_after, !errOf_after, !callsOf_after, !filter_app.
        destruct (IH pkg) as (A & B & C). rewrite C. auto.
      * rewrite !(parseLoop_meta p _ c m rs pkg HB HM),
          !pkgOf_after, !errOf_after, !callsOf_after, !filter_app.
        destruct (IH {| meta := meta pkg ++ [m]; objects := objects pkg |})
          as (A & B & C).
        rewrite C. auto.
      * rewrite !(parseLoop_obj p _ c em o rs pkg HB HM HN HO),
          !pkgOf_after, !errOf_after, !callsOf_after, !filter_app.
        destruct (IH {| meta := meta pkg; objects := objects pkg ++ [o] |})
          as (A & B & C).
        rewrite C. auto.
      * rewrite !(parseLoop_obj_fail p _ c em eo rs pkg HB HM HN HO).
        cbn [pkgOf errOf callsOf fst snd]. rewrite !filter_app.
        unfold annotateErr.
        destruct (annotation rc), (annotation rc'); cbn;
          repeat split; auto; discriminate.
      * rewrite !(parseLoop_meta_fail p _ c em rs pkg HB HM HN).
        cbn [pkgOf errOf callsOf fst snd]. rewrite !filter_app.
        unfold annotateErr.
        destruct (annotation rc), (annotation rc'); cbn;
          repeat split; auto; discriminate.
    + rewrite !parseLoop_read_err. cbn. tauto.
Qed.

End Prefix.

(** ** The calls made by the loop *)

Lemma cons_eq_mid {A : Type} (a : A) l pre x post :
  a :: l = pre ++ x :: post ->
  (pre = [] /\ a = x /\ l = post)
  \/ (exists pre', pre = a :: pre' /\ l = pre' ++ x :: post).
Proof.
  destruct pre as [|b pre']; cbn [app]; intros H; injection H as -> ->.
  - left; auto.
  - right; eauto.
Qed.

Lemma app_last_mid {A : Type} (evs : list A) z pre x post :
  evs ++ [z] = pre ++ x :: post ->
  x <> z ->
  exists post', post = post' ++ [z] /\ evs = pre ++ x :: post'.
Proof.
  revert evs. induction pre as [|b pre IH]; intros evs H N.
  - destruct evs as [|a evs]; cbn in H; injection H as E1 E2.
    + congruence.
    + exists evs. subst. auto.
  - destruct evs as [|a evs]; cbn in H; injection H as E1 E2.
    + destruct pre; discriminate.
    + destruct (IH evs E2 N) as (post' & P1 & P2). exists post'.
      subst. auto.
Qed.

Lemma annotated_app (l1 l2 : list Event) :
  annotated (l1 ++ l2) = annotated l1 ++ annotated l2.
Proof.
  induction l1 as [|ev l1 IH]; [reflexivity|].
  destruct ev; cbn [app annotated]; rewrite IH; reflexivity.
Qed.

(** Peel the first call off an equation [a :: l = pre ++ x :: post]. *)
Ltac peel H :=
  let pre' := fresh "pre" in
  let E := fresh "E" in
  let X := fresh "X" in
  lazymatch type of H with
  | _ :: _ = _ ++ _ :: _ =>
    apply cons_eq_mid in H;
    destruct H as [(E & X & H) | (pre' & E & H)]; subst
  | [] = ?pre ++ _ :: _ =>
    exfalso; destruct pre; discriminate H
  end.

Section Calls.

Context {Object : Type}.
Variable p : PackageParser Object.
Variable rc : ReadCloser.

(** A delivered non-blank document goes to the metadata scheme first. *)
Lemma calls_read_then_meta (rs : list (result string)) :
  forall (pkg : Package Object) pre c post,
  callsOf (parseLoop p rc rs pkg) = pre ++ EvRead (Ok c) :: post ->
  isEmptyYAML c = false ->
  exists post', post = EvDecodeMeta c :: post'.
Proof.
  induction rs as [|r rs IH]; intros pkg pre c post H NB.
  - rewrite parseLoop_nil in H. cbn in H. peel H; [discriminate|peel H].
  - revert H. loop_turn p rc r rs pkg; intros H;
      rewrite ?callsOf_after, ?annotateErr_snd in H; cbn [callsOf snd app] in H.
    + peel H; [congruence|]. eapply IH; eauto.
    + peel H; [injection X as ->; eauto|].
      peel H; [discriminate|]. eapply IH; eauto.
    + peel H; [injection X as ->; eauto|].
      peel H; [discriminate|]. peel H; [discriminate|]. eapply IH; eauto.
    + peel H; [injection X as ->; eauto|].
      peel H; [discriminate|]. peel H; [discriminate|].
      destruct (annotation rc); [peel H; [discriminate|]|]; peel H.
    + peel H; [injection X as ->; eauto|].
      peel H; [discriminate|].
      destruct (annotation rc); [peel H; [discriminate|]|]; peel H.
    + peel H; [discriminate|peel H].
Qed.

(** The object scheme is tried only straight after the metadata scheme
    failed on the same document for not knowing its kind. *)
Lemma calls_obj_after_unregistered (rs : list (result string)) :
  forall (pkg : Package Object) pre c post,
  callsOf (parseLoop p rc rs pkg) = pre ++ EvDecodeObj c :: post ->
  exists pre' e,
    pre = pre' ++ [EvDecodeMeta c]
    /\ Decode (metaScheme p) c = Err e
    /\ IsNotRegisteredError (Some e) = true.
Proof.
  induction rs as [|r rs IH]; intros pkg pre c post H.
  - rewrite parseLoop_nil in H. cbn in H. peel H; [discriminate|peel H].
  - revert H. loop_turn p rc r rs pkg; intros H;
      rewrite ?callsOf_after, ?annotateErr_snd in H; cbn [callsOf snd app] in H.
    + peel H; [discriminate|].
      destruct (IH _ _ _ _ H) as (pre' & e & -> & M & N).
      exists (EvRead (Ok c0) :: pre'), e. auto.
    + peel H; [discriminate|]. peel H; [discriminate|].
      destruct (IH _ _ _ _ H) as (pre' & e & -> & M & N).
      exists (EvRead (Ok c0) :: EvDecodeMeta c0 :: pre'), e. auto.
    + peel H; [discriminate|]. peel H; [discriminate|].
      peel H.
      * injection X as ->. exists [EvRead (Ok c)], em. auto.
      * destruct (IH _ _ _ _ H) as (pre' & e & -> & M & N).
        exists (EvRead (Ok c0) :: EvDecodeMeta c0 :: EvDecodeObj c0 :: pre'), e.
        auto.
    + peel H; [discriminate|]. peel H; [discriminate|].
      peel H.
      * injection X as ->. exists [EvRead (Ok c)], em. auto.
      * destruct (annotation rc); [peel H; [discriminate|]|]; peel H.
    + peel H; [discriminate|]. peel H; [discriminate|].
      destruct (annotation rc); [peel H; [discriminate|]|]; peel H.
    + peel H; [discriminate|peel H].
Qed.

(** When the metadata scheme fails otherwise, nothing follows but the
    annotation of that error, which is the error returned. *)
Lemma calls_meta_failure_aborts (rs : list (result string)) :
  forall (pkg : Package Object) pre c post e,
  callsOf (parseLoop p rc rs pkg) = pre ++ EvDecodeMeta c :: post ->
  Decode (metaScheme p) c = Err e ->
  IsNotRegisteredError (Some e) = false ->
  errOf (parseLoop p rc rs pkg) = fst (annotateErr (Some e) rc)
  /\ post = snd (annotateErr (Some e) rc).
Proof.
  induction rs as [|r rs IH]; intros pkg pre c post e H M N.
  - rewrite parseLoop_nil in H. cbn in H. peel H; [discriminate|peel H].
  - revert H. loop_turn p rc r rs pkg; intros H;
      rewrite ?callsOf_after, ?errOf_after in *; cbn [callsOf errOf fst snd app] in *.
    + peel H; [discriminate|]. eapply IH; eauto.
    + peel H; [discriminate|].
      peel H; [injection X as ->; congruence|]. eapply IH; eauto.
    + peel H; [discriminate|].
      peel H; [injection X as ->; congruence|].
      peel H; [discriminate|]. eapply IH; eauto.
    + peel H; [discriminate|].
      peel H; [injection X as ->; congruence|].
      peel H; [discriminate|].
      rewrite annotateErr_snd in H.
      destruct (annotation rc); [peel H; [discriminate|]|]; peel H.
    + peel H; [discriminate|].
      peel H.
      * injection X as ->. rewrite HM in M. injection M as ->. auto.
      * rewrite annotateErr_snd in H.
        destruct (annotation rc); [peel H; [discriminate|]|]; peel H.
    + peel H; [discriminate|peel H].
Qed.

End Calls.

Section Annotation.

Context {Object : Type}.
Variable p : PackageParser Object.
Variable rc : ReadCloser.

(** How the loop ends: without error; with a read failure, returned as it
    is; or with a decode failure, passed once through the annotator. *)
Lemma parseLoop_ends (rs : list (result string)) :
  forall pkg : Package Object,
  let out := parseLoop p rc rs pkg in
  (errOf out = None /\ annotated (callsOf out) = [])
  \/ (exists e, In (Err e) rs /\ Is (Some e) EOF = false
                /\ errOf out = Some e /\ annotated (callsOf out) = [])
  \/ (exists c e, In (Ok c) rs /\ isEmptyYAML c = false /\ rejects p c e
                  /\ errOf out = fst (annotateErr (Some e) rc)
                  /\ annotated (callsOf out)
                     = annotated (snd (annotateErr (Some e) rc))).
Proof.
  induction rs as [|r rs IH]; intros pkg; cbv zeta.
  - left. rewrite parseLoop_nil. auto.
  - loop_turn p rc r rs pkg;
      rewrite ?errOf_after, ?callsOf_after, ?annotated_app;
      cbn [errOf callsOf fst snd annotated app].
    + destruct (IH pkg) as [H|[(e & I & H)|(c' & e & I & H)]];
        [left; exact H
        |right; left; exists e; split; [right; exact I|exact H]
        |right; right; exists c', e; split; [right; exact I|exact H]].
    + destruct (IH {| meta := meta pkg ++ [m]; objects := objects pkg |})
        as [H|[(e & I & H)|(c' & e & I & H)]];
        [left; exact H
        |right; left; exists e; split; [right; exact I|exact H]
        |right; right; exists c', e; split; [right; exact I|exact H]].
    + destruct (IH {| meta := meta pkg; objects := objects pkg ++ [o] |})
        as [H|[(e & I & H)|(c' & e & I & H)]];
        [left; exact H
        |right; left; exists e; split; [right; exact I|exact H]
        |right; right; exists c', e; split; [right; exact I|exact H]].
    + right; right. exists c, eo. repeat split; auto.
      * left; reflexivity.
      * right. exists em. auto.
    + right; right. exists c, em. repeat split; auto.
      * left; reflexivity.
      * left. auto.
    + destruct (Is (Some e) EOF) eqn:HE.
      * left. auto.
      * right; left. exists e. repeat split; auto. left; reflexivity.
Qed.

(** Blank documents never reach a scheme. *)
Lemma decoded_not_blank (rs : list (result string)) :
  forall (pkg : Package Object) c,
  In (EvDecodeMeta c) (callsOf (parseLoop p rc rs pkg))
  \/ In (EvDecodeObj c) (callsOf (parseLoop p rc rs pkg)) ->
  isEmptyYAML c = false.
Proof.
  induction rs as [|r rs IH]; intros pkg c.
  - rewrite parseLoop_nil. cbn. intros [[H|[]]|[H|[]]]; discriminate.
  - loop_turn p rc r rs pkg;
      rewrite ?callsOf_after, ?annotateErr_snd; cbn [callsOf snd app];
      try (destruct (annotation rc)); cbn [In];
      intros H;
      repeat match goal with
             | H : _ \/ _ |- _ => destruct H as [H|H]
             | H : False |- _ => destruct H
             | H : EvRead _ = _ |- _ => discriminate H
             | H : EvAnnotate _ = _ |- _ => discriminate H
             | H : EvDecodeMeta _ = EvDecodeObj _ |- _ => discriminate H
             | H : EvDecodeObj _ = EvDecodeMeta _ |- _ => discriminate H
             | H : EvDecodeMeta _ = EvDecodeMeta _ |- _ => injection H as <-
             | H : EvDecodeObj _ = EvDecodeObj _ |- _ => injection H as <-
             end;
      try assumption;
      try (eapply IH; eauto; fail).
Qed.

(** Taking the blank documents out of a stream changes neither the
    package, nor the error, nor the decode calls. *)
Lemma dropBlank_same (rs : list (result string)) :
  forall pkg : Package Object,
  pkgOf (parseLoop p rc (dropBlank rs) pkg) = pkgOf (parseLoop p rc rs pkg)
  /\ errOf (parseLoop p rc (dropBlank rs) pkg) = errOf (parseLoop p rc rs pkg)
  /\ filter isDecode (callsOf (parseLoop p rc (dropBlank rs) pkg))
     = filter isDecode (callsOf (parseLoop p rc rs pkg)).
Proof.
  induction rs as [|r rs IH]; intros pkg.
  - cbn [dropBlank filter]. auto.
  - destruct r as [c|e]; unfold dropBlank; cbn [filter]; fold (dropBlank rs).
    + doc_cases p c; cbn [negb].
      * rewrite (parseLoop_blank p rc c rs pkg HB),
          pkgOf_after, errOf_after, callsOf_after, filter_app.
        cbn [filter isDecode app]. apply IH.
      * rewrite !(parseLoop_meta p rc c m _ pkg HB HM),
          !pkgOf_after, !errOf_after, !callsOf_after, !filter_app.
        destruct (IH {| meta := meta pkg ++ [m]; objects := objects pkg |})
          as (A & B & C).
        rewrite C. auto.
      * rewrite !(parseLoop_obj p rc c em o _ pkg HB HM HN HO),
          !pkgOf_after, !errOf_after, !callsOf_after, !filter_app.
        destruct (IH {| meta := meta pkg; objects := objects pkg ++ [o] |})
          as (A & B & C).
        rewrite C. auto.
      * rewrite !(parseLoop_obj_fail p rc c em eo _ pkg HB HM HN HO). auto.
      * rewrite !(parseLoop_meta_fail p rc c em _ pkg HB HM HN). auto.
    + rewrite !parseLoop_read_err. auto.
Qed.

End Annotation.

(** ** Trimming and splitting on spaces and tabs *)

Section Blanks.

Open Scope string_scope.

Lemma blank_char_space (c : ascii) :
  (Ascii.eqb c " " || Ascii.eqb c "009")%char = true ->
  (Go.byteZ c <? 0x80)%Z = true
  /\ Go.IsSpace (Go.byteZ c) = true
  /\ Ascii.eqb c Go.newline = false.
Proof.
  intros H. apply orb_true_iff in H.
  destruct H as [H|H]; apply Ascii.eqb_eq in H; subst c; repeat split.
Qed.

Lemma trimLeftLoop_blanks (ws t : string) :
  forall n,
  blanks ws = true ->
  Go.trimLeftLoop (String.length ws + n) Go.IsSpace (ws ++ t)
  = Go.trimLeftLoop n Go.IsSpace t.
Proof.
  induction ws as [|c ws IH]; intros n B; [reflexivity|].
  cbn [blanks] in B. apply andb_true_iff in B. destruct B as [Bc Bw].
  destruct (blank_char_space c Bc) as (A & S & _).
  cbn [String.length Nat.add append Go.trimLeftLoop Go.DecodeRuneInString].
  rewrite A, S. cbn [Go.sliceFrom]. apply IH. exact Bw.
Qed.

Lemma length_append (s t : string) :
  String.length (s ++ t) = String.length s + String.length t.
Proof. induction s as [|c s IH]; cbn; [reflexivity|]. rewrite IH. reflexivity. Qed.

(** Leading spaces and tabs are trimmed away... *)
Lemma TrimLeftFunc_blanks (ws t : string) :
  blanks ws = true ->
  Go.TrimLeftFunc (ws ++ t) Go.IsSpace = Go.TrimLeftFunc t Go.IsSpace.
Proof.
  intros B. unfold Go.TrimLeftFunc. rewrite length_append.
  apply trimLeftLoop_blanks. exact B.
Qed.

Lemma SplitLines_blanks (ws t : string) :
  blanks ws = true ->
  Go.SplitLines t = [t] ->
  Go.SplitLines (ws ++ t) = [ws ++ t].
Proof.
  intros B T. induction ws as [|c ws IH]; [exact T|].
  cbn [blanks] in B. apply andb_true_iff in B. destruct B as [Bc Bw].
  destruct (blank_char_space c Bc) as (_ & _ & N).
  cbn [append Go.SplitLines]. rewrite N, (IH Bw). reflexivity.
Qed.

Lemma append_empty_r (s : string) : s ++ "" = s.
Proof. induction s as [|c s IH]; cbn; [reflexivity|]. rewrite IH. reflexivity. Qed.

(** ... so a marker after them still reads as a marker, *)
Lemma isEmptyYAML_marker_after_blanks (ws : string) :
  blanks ws = true ->
  isEmptyYAML (ws ++ "---") = true /\ isEmptyYAML (ws ++ "...") = true.
Proof.
  intros B. unfold isEmptyYAML.
  rewrite !(SplitLines_blanks ws _ B) by reflexivity.
  cbn [isEmptyYAML_lines]. rewrite !(TrimLeftFunc_blanks ws _ B).
  split; reflexivity.
Qed.

Lemma SplitLines_cons (c : ascii) (t : string) :
  Ascii.eqb c Go.newline = false ->
  Go.SplitLines t = [t] ->
  Go.SplitLines (String c t) = [String c t].
Proof. intros N T. cbn [Go.SplitLines]. rewrite N, T. reflexivity. Qed.

Lemma TrimLeftFunc_keeps (c : ascii) (t : string) :
  (Go.byteZ c <? 0x80)%Z = true ->
  Go.IsSpace (Go.byteZ c) = false ->
  Go.TrimLeftFunc (String c t) Go.IsSpace = String c t.
Proof.
  intros A S. unfold Go.TrimLeftFunc.
  cbn [String.length Go.trimLeftLoop Go.DecodeRuneInString].
  rewrite A, S. reflexivity.
Qed.

(** ... while trailing ones stay, and the line is no marker any more. *)
Lemma isEmptyYAML_marker_before_blanks (ws : string) :
  ws <> "" ->
  blanks ws = true ->
  isEmptyYAML ("---" ++ ws) = false /\ isEmptyYAML ("..." ++ ws) = false.
Proof.
  intros NE B.
  assert (W : Go.SplitLines ws = [ws]).
  { rewrite <- (append_empty_r ws).
    apply SplitLines_blanks; [exact B|reflexivity]. }
  assert (S1 : Go.SplitLines ("---" ++ ws) = ["---" ++ ws]).
  { cbn [append]. repeat (apply SplitLines_cons; [reflexivity|]). exact W. }
  assert (S2 : Go.SplitLines ("..." ++ ws) = ["..." ++ ws]).
  { cbn [append]. repeat (apply SplitLines_cons; [reflexivity|]). exact W. }
  unfold isEmptyYAML. rewrite S1, S2.
  cbn [isEmptyYAML_lines append].
  rewrite !TrimLeftFunc_keeps by reflexivity.
  destruct ws as [|c ws]; [contradiction|].
  split; reflexivity.
Qed.

End Blanks.

(** ** From the loop to [Parse] *)

Section ParseFacts.

Context {Object : Type}.
Variable p : PackageParser Object.
Variable rc : ReadCloser.

Lemma pkgOf_Parse :
  pkgOf (Parse p (Some rc)) = pkgOf (parseLoop p rc (reads rc) NewPackage).
Proof.
  unfold Parse. destruct (parseLoop p rc (reads rc) NewPackage) as [[? ?] ?].
  reflexivity.
Qed.

Lemma errOf_Parse :
  errOf (Parse p (Some rc)) = errOf (parseLoop p rc (reads rc) NewPackage).
Proof.
  unfold Parse. destruct (parseLoop p rc (reads rc) NewPackage) as [[? ?] ?].
  reflexivity.
Qed.

Lemma callsOf_Parse :
  callsOf (Parse p (Some rc))
  = callsOf (parseLoop p rc (reads rc) NewPackage) ++ [EvClose].
Proof.
  unfold Parse. destruct (parseLoop p rc (reads rc) NewPackage) as [[? ?] ?].
  reflexivity.
Qed.

(** The loop never looks at the reads of the stream it is given, only at
    its annotation. *)
Lemma parseLoop_reads_irrelevant (rs rs' : list (result string)) :
  forall pkg : Package Object,
  parseLoop p {| reads := rs'; annotation := annotation rc |} rs pkg
  = parseLoop p rc rs pkg.
Proof.
  set (rc' := {| reads := rs'; annotation := annotation rc |}).
  assert (A : forall e, annotateErr e rc' = annotateErr e rc) by reflexivity.
  induction rs as [|r rs IH]; intros pkg; [reflexivity|].
  destruct r as [c|e].
  - doc_cases p c.
    + rewrite !(parseLoop_blank p _ c rs pkg HB), IH. reflexivity.
    + rewrite !(parseLoop_meta p _ c m rs pkg HB HM), IH. reflexivity.
    + rewrite !(parseLoop_obj p _ c em o rs pkg HB HM HN HO), IH. reflexivity.
    + rewrite !(parseLoop_obj_fail p _ c em eo rs pkg HB HM HN HO), A.
      reflexivity.
    + rewrite !(parseLoop_meta_fail p _ c em rs pkg HB HM HN), A. reflexivity.
  - rewrite !parseLoop_read_err. reflexivity.
Qed.

Lemma delivered_map_Ok (docs : list string) : delivered (map Ok docs) = docs.
Proof. induction docs as [|c docs IH]; cbn; [reflexivity|]. rewrite IH. reflexivity. Qed.

(** After a metadata failure for an unknown kind, the object scheme is
    tried next, on the same document. *)
Lemma calls_unregistered_then_obj (rs : list (result string)) :
  forall (pkg : Package Object) pre c post e,
  callsOf (parseLoop p rc rs pkg) = pre ++ EvDecodeMeta c :: post ->
  Decode (metaScheme p) c = Err e ->
  IsNotRegisteredError (Some e) = true ->
  exists post', post = EvDecodeObj c :: post'.
Proof.
  induction rs as [|r rs IH]; intros pkg pre c post e H M N.
  - rewrite parseLoop_nil in H. cbn in H. peel H; [discriminate|peel H].
  - revert H. loop_turn p rc r rs pkg; intros H;
      rewrite ?callsOf_after, ?annotateErr_snd in H; cbn [callsOf snd app] in H.
    + peel H; [discriminate|]. eapply IH; eauto.
    + peel H; [discriminate|].
      peel H; [injection X as ->; congruence|]. eapply IH; eauto.
    + peel H; [discriminate|].
      peel H; [injection X as ->; eauto|].
      peel H; [discriminate|]. eapply IH; eauto.
    + peel H; [discriminate|].
      peel H; [injection X as ->; eauto|].
      peel H; [discriminate|].
      destruct (annotation rc); [peel H; [discriminate|]|]; peel H.
    + peel H; [discriminate|].
      peel H; [injection X as ->; congruence|].
      destruct (annotation rc); [peel H; [discriminate|]|]; peel H.
    + peel H; [discriminate|peel H].
Qed.

End ParseFacts.

(** ** The scenario of the documentation, on documents already split *)

Example Parse_Foo_Bar :
  Parse Fixtures.parser
    (Some {| reads := [Ok "---"; Ok "kind: Foo"; Ok "# comment"; Ok "kind: Bar"];
             annotation := None |})
  = ({| meta := ["Foo"]; objects := ["Bar"] |}, None,
     [EvRead (Ok "---");
      EvRead (Ok "kind: Foo"); EvDecodeMeta "kind: Foo";
      EvRead (Ok "# comment");
      EvRead (Ok "kind: Bar"); EvDecodeMeta "kind: Bar"; EvDecodeObj "kind: Bar";
      EvRead (Err EOF); EvClose]).
Proof. reflexivity. Qed.

Example Parse_malformed_metadata :
  Parse Fixtures.parser
    (Some {| reads := [Ok "kind: Bar"; Ok "kind: Foo:"; Ok "kind: Foo"];
             annotation := Some "pkg.yaml" |})
  = ({| meta := []; objects := ["Bar"] |},
     Some (wrapError "pkg.yaml"
             (errorString "yaml: mapping values are not allowed in this context")),
     [EvRead (Ok "kind: Bar"); EvDecodeMeta "kind: Bar"; EvDecodeObj "kind: Bar";
      EvRead (Ok "kind: Foo:"); EvDecodeMeta "kind: Foo:";
      EvAnnotate (Some (errorString "yaml: mapping values are not allowed in this context"));
      EvClose]).
Proof. reflexivity. Qed.

(** * Main theorems *)


(** A stream of documents that the loop gets through yields the decoded
    values of its non-blank documents, each in its list. *)
Lemma parseLoop_success_package {Object : Type}
    (p : PackageParser Object) (rc : ReadCloser) (docs : list string) :
  errOf (parseLoop p rc (map Ok docs) NewPackage) = None ->
  meta (pkgOf (parseLoop p rc (map Ok docs) NewPackage)) = metaOf p (nonBlank docs)
  /\ objects (pkgOf (parseLoop p rc (map Ok docs) NewPackage))
     = objectsOf p (nonBlank docs).
Proof.
  intros H.
  destruct (parseLoop_placed p rc (map Ok docs) NewPackage)
    as (placed & rest & E & M & O & _ & S & _).
  rewrite delivered_map_Ok in E. rewrite (S H), app_nil_r in E. subst placed.
  cbn [meta objects NewPackage app] in M, O. auto.
Qed.

(** C2, as stated, fails: with a metadata scheme that knows Foo and an
    object scheme that knows Bar, a document of kind Baz after one of kind
    Foo makes [Parse] return the object scheme's error, which is not the
    metadata scheme's, and the metadata scheme's error is nowhere in it. *)
Lemma Parse_unrecognized_error_is_not_metadata_error :
  Decode (metaScheme Fixtures.parser) "kind: Baz"
    = Err (notRegisteredErr "meta" "kind: Baz")
  /\ Decode (objScheme Fixtures.parser) "kind: Baz"
     = Err (notRegisteredErr "objects" "kind: Baz")
  /\ errOf (Parse Fixtures.parser
              (Some {| reads := [Ok "kind: Foo"; Ok "kind: Baz"];
                       annotation := None |}))
     = Some (notRegisteredErr "objects" "kind: Baz")
  /\ errOf (Parse Fixtures.parser
              (Some {| reads := [Ok "kind: Foo"; Ok "kind: Baz"];
                       annotation := None |}))
     <> Some (notRegisteredErr "meta" "kind: Baz")
  /\ Is (errOf (Parse Fixtures.parser
                  (Some {| reads := [Ok "kind: Foo"; Ok "kind: Baz"];
                           annotation := None |})))
        (notRegisteredErr "meta" "kind: Baz") = false.
Proof. repeat split. discriminate. Qed.

(** C2, amended. When [Parse] reaches a non-blank document that the
    metadata scheme does not know and that the object scheme fails to
    decode, it aborts; the error returned is the object scheme's (wrapped
    in the annotation when the stream has one); the package is the one the
    documents before it produce, so the document is in neither list and the
    documents decoded before it are all there. *)
Theorem Parse_unrecognized_returns_object_error {Object : Type}
    (p : PackageParser Object) (anno : option string)
    (docs : list string) (c : string) (post : list (result string))
    (em eo : error) :
  errOf (Parse p (Some {| reads := map Ok docs; annotation := anno |})) = None ->
  isEmptyYAML c = false ->
  Decode (metaScheme p) c = Err em ->
  IsNotRegisteredError (Some em) = true ->
  Decode (objScheme p) c = Err eo ->
  errOf (Parse p (Some {| reads := map Ok docs ++ Ok c :: post; annotation := anno |}))
  = match anno with
    | Some a => Some (wrapError a eo)
    | None => Some eo
    end
  /\ pkgOf (Parse p (Some {| reads := map Ok docs ++ Ok c :: post; annotation := anno |}))
     = pkgOf (Parse p (Some {| reads := map Ok docs; annotation := anno |}))
  /\ GetMeta (pkgOf (Parse p (Some {| reads := map Ok docs ++ Ok c :: post;
                                      annotation := anno |})))
     = metaOf p (nonBlank docs)
  /\ GetObjects (pkgOf (Parse p (Some {| reads := map Ok docs ++ Ok c :: post;
                                         annotation := anno |})))
     = objectsOf p (nonBlank docs).
Proof.
  intros S NB M N O.
  rewrite errOf_Parse in S. rewrite !pkgOf_Parse, errOf_Parse.
  cbn [reads] in *.
  pose proof (parseLoop_reads_irrelevant p
                {| reads := map Ok docs ++ Ok c :: post; annotation := anno |}
                (map Ok docs) (map Ok docs) NewPackage) as E.
  cbn [annotation] in E. rewrite E in S |- *. clear E.
  destruct (parseLoop_prefix p _ docs (Ok c :: post) NewPackage S) as (P1 & P2).
  destruct (parseLoop_success_package p _ docs S) as (M1 & O1).
  rewrite P1, P2, (parseLoop_obj_fail p _ c em eo post _ NB M N O).
  cbn [pkgOf errOf fst snd]. rewrite annotateErr_fst.
  unfold GetMeta, GetObjects. cbn [annotation]. auto.
Qed.

Lemma Parse_unrecognized_returns_object_error_witness :
  errOf (Parse Fixtures.parser
           (Some {| reads := map Ok ["kind: Foo"; "kind: Bar"] ++ Ok "kind: Baz" :: [Ok "kind: Foo"];
                    annotation := Some "pkg.yaml" |}))
  = Some (wrapError "pkg.yaml" (notRegisteredErr "objects" "kind: Baz"))
  /\ pkgOf (Parse Fixtures.parser
              (Some {| reads := map Ok ["kind: Foo"; "kind: Bar"] ++ Ok "kind: Baz" :: [Ok "kind: Foo"];
                       annotation := Some "pkg.yaml" |}))
     = pkgOf (Parse Fixtures.parser
                (Some {| reads := map Ok ["kind: Foo"; "kind: Bar"];
                         annotation := Some "pkg.yaml" |}))
  /\ GetMeta (pkgOf (Parse Fixtures.parser
                (Some {| reads := map Ok ["kind: Foo"; "kind: Bar"] ++ Ok "kind: Baz" :: [Ok "kind: Foo"];
                         annotation := Some "pkg.yaml" |})))
     = metaOf Fixtures.parser (nonBlank ["kind: Foo"; "kind: Bar"])
  /\ GetObjects (pkgOf (Parse Fixtures.parser
                (Some {| reads := map Ok ["kind: Foo"; "kind: Bar"] ++ Ok "kind: Baz" :: [Ok "kind: Foo"];
                         annotation := Some "pkg.yaml" |})))
     = objectsOf Fixtures.parser (nonBlank ["kind: Foo"; "kind: Bar"]).
Proof.
  apply (Parse_unrecognized_returns_object_error Fixtures.parser (Some "pkg.yaml")
           ["kind: Foo"; "kind: Bar"] "kind: Baz" [Ok "kind: Foo"]
           (notRegisteredErr "meta" "kind: Baz")
           (notRegisteredErr "objects" "kind: Baz"));
    reflexivity.
Defined.

(** C3, as stated, fails: on an annotated stream whose read fails after
    the first document, [Parse] returns the read error as it is; the
    annotator is not called and the error is not the wrapped one. *)
Lemma Parse_read_failure_not_annotated :
  errOf (Parse Fixtures.parser
           (Some {| reads := [Ok "kind: Foo"; Err (errorString "connection reset by peer")];
                    annotation := Some "pod/pkg" |}))
  = Some (errorString "connection reset by peer")
  /\ errOf (Parse Fixtures.parser
              (Some {| reads := [Ok "kind: Foo"; Err (errorString "connection reset by peer")];
                       annotation := Some "pod/pkg" |}))
     <> Wrapf (Some (errorString "connection reset by peer")) "pod/pkg"
  /\ annotated (callsOf (Parse Fixtures.parser
              (Some {| reads := [Ok "kind: Foo"; Err (errorString "connection reset by peer")];
                       annotation := Some "pod/pkg" |}))) = [].
Proof. repeat split. discriminate. Qed.

(** C4. The non-blank documents that the stream delivers split into those
    placed and the rest. The metadata list is what the metadata scheme
    makes of the placed documents it recognizes, in stream order; the
    object list is what the object scheme makes of the placed documents
    that the metadata scheme does not recognize, so a document recognized
    by the metadata scheme puts nothing in the object list; every placed
    document is in exactly one of the two lists. When [Parse] returns no
    error nothing is left over; when something is, the first left over
    failed to decode and its error (through the annotator) is returned. *)
Theorem Parse_places_every_document {Object : Type}
    (p : PackageParser Object) (rc : ReadCloser) :
  exists placed rest,
    nonBlank (delivered (reads rc)) = placed ++ rest
    /\ GetMeta (pkgOf (Parse p (Some rc))) = metaOf p placed
    /\ GetObjects (pkgOf (Parse p (Some rc))) = objectsOf p placed
    /\ Forall (placedOnce p) placed
    /\ (errOf (Parse p (Some rc)) = None -> rest = [])
    /\ (forall bad rest', rest = bad :: rest' ->
          exists e, rejects p bad e
                    /\ errOf (Parse p (Some rc)) = fst (annotateErr (Some e) rc)).
Proof.
  rewrite pkgOf_Parse, errOf_Parse.
  destruct (parseLoop_placed p rc (reads rc) NewPackage)
    as (placed & rest & E & M & O & F & S & R).
  exists placed, rest. cbn [meta objects NewPackage app] in M, O.
  unfold GetMeta, GetObjects. auto 10.
Qed.

(** C5. A document is blank exactly when each of its lines, trimmed of
    leading white space, is empty, "---", "..." or starts with "#"; the
    test depends on the lines only. No blank document is handed to either
    scheme, and a stream parses to the same package, error and decode
    calls with its blank documents taken out. *)
Theorem Parse_skips_blank_documents {Object : Type}
    (p : PackageParser Object) (rc : ReadCloser) :
  (forall y, isEmptyYAML y = true <-> Forall blankLine (Go.SplitLines y))
  /\ (forall y y', Go.SplitLines y = Go.SplitLines y' ->
                   isEmptyYAML y = isEmptyYAML y')
  /\ (forall c, In (EvDecodeMeta c) (callsOf (Parse p (Some rc)))
                \/ In (EvDecodeObj c) (callsOf (Parse p (Some rc))) ->
                isEmptyYAML c = false)
  /\ pkgOf (Parse p (Some {| reads := dropBlank (reads rc);
                             annotation := annotation rc |}))
     = pkgOf (Parse p (Some rc))
  /\ errOf (Parse p (Some {| reads := dropBlank (reads rc);
                             annotation := annotation rc |}))
     = errOf (Parse p (Some rc))
  /\ filter isDecode (callsOf (Parse p (Some {| reads := dropBlank (reads rc);
                                                annotation := annotation rc |})))
     = filter isDecode (callsOf (Parse p (Some rc))).
Proof.
  split; [exact isEmptyYAML_blank_lines|].
  split; [intros y y' E; unfold isEmptyYAML; rewrite E; reflexivity|].
  split.
  { intros c. rewrite callsOf_Parse. intros H.
    apply (decoded_not_blank p rc (reads rc) NewPackage).
    destruct H as [H|H]; apply in_app_or in H;
      destruct H as [H|[H|[]]]; try discriminate H; auto. }
  rewrite !pkgOf_Parse, !errOf_Parse, !callsOf_Parse, !filter_app.
  cbn [reads].
  rewrite (parseLoop_reads_irrelevant p rc (dropBlank (reads rc))
             (dropBlank (reads rc)) NewPackage).
  destruct (dropBlank_same p rc (reads rc) NewPackage) as (A & B & C).
  rewrite A, B, C. auto.
Qed.

(** C7. Without a stream, [Parse] returns the empty package and no error,
    and calls nothing. NopBackend.Init returns no stream and no error
    whatever the options, and [Parse] on what it returns gives the empty
    package and no error. *)
Theorem Parse_nil_reader {Object Client Fs FilterFn : Type}
    (p : PackageParser Object)
    (bo : list (BackendOption Client Fs FilterFn)) :
  Parse p None = (NewPackage, None, [])
  /\ NopBackend_Init bo = (None, None)
  /\ Parse p (fst (NopBackend_Init bo)) = (NewPackage, None, [])
  /\ GetMeta (pkgOf (Parse p (fst (NopBackend_Init bo)))) = []
  /\ GetObjects (pkgOf (Parse p (fst (NopBackend_Init bo)))) = []
  /\ errOf (Parse p (fst (NopBackend_Init bo))) = None.
Proof. repeat split. Qed.

(** C8. Two streams newly opened over the same bytes, whatever their
    annotations, parse with the same two schemes to packages with the same
    metadata list and the same object list, end both with or both without
    an error, and make the same decode calls. *)
Theorem Parse_deterministic {Object : Type}
    (p : PackageParser Object)
    (yamlDocs : string -> list (result string))
    (b : string) (anno1 anno2 : option string) :
  GetMeta (pkgOf (Parse p (Some (openStream yamlDocs b anno1))))
  = GetMeta (pkgOf (Parse p (Some (openStream yamlDocs b anno2))))
  /\ GetObjects (pkgOf (Parse p (Some (openStream yamlDocs b anno1))))
     = GetObjects (pkgOf (Parse p (Some (openStream yamlDocs b anno2))))
  /\ (errOf (Parse p (Some (openStream yamlDocs b anno1))) = None
      <-> errOf (Parse p (Some (openStream yamlDocs b anno2))) = None)
  /\ filter isDecode (callsOf (Parse p (Some (openStream yamlDocs b anno1))))
     = filter isDecode (callsOf (Parse p (Some (openStream yamlDocs b anno2)))).
Proof.
  rewrite !pkgOf_Parse, !errOf_Parse, !callsOf_Parse, !filter_app.
  cbn [reads openStream].
  destruct (parseLoop_annotation_free p (openStream yamlDocs b anno1)
              (openStream yamlDocs b anno2) (yamlDocs b) NewPackage)
    as (A & B & C).
  unfold openStream in *. unfold GetMeta, GetObjects.
  rewrite A, C. repeat split; try apply B.
Qed.

(** C9. An option applied to a backend of another variant than the one it
    targets returns the backend as it was. FsFilters on an FsBackend sets
    the filters to the ones given, whatever they were before: nothing of
    the earlier filters is kept. *)
Theorem options_ignore_other_variants {Client Fs FilterFn : Type}
    (call : OptionCall Client FilterFn) (b : Backend Client Fs FilterFn)
    (f : FsBackend Fs FilterFn) (skips1 skips2 : list FilterFn) :
  variantOf b <> targetOf call ->
  optionOf call b = b
  /\ FsFilters (Client := Client) skips2 (AnFsBackend f)
     = AnFsBackend {| fs := fs f; dir := dir f; skips := skips2 |}
  /\ FsFilters (Client := Client) skips2 (FsFilters skips1 (AnFsBackend f))
     = FsFilters skips2 (AnFsBackend f).
Proof.
  intros H. split; [|split; reflexivity].
  destruct call, b; cbn in *; congruence.
Qed.

Lemma options_ignore_other_variants_witness :
  optionOf (Client := unit) (Fs := unit) (CallFsFilters [true; false])
    (NewPodLogBackend [PodName "pkg"; FsDir "/tmp"])
  = NewPodLogBackend [PodName "pkg"; FsDir "/tmp"]
  /\ FsFilters (Client := unit) [true] (AnFsBackend {| fs := tt; dir := "/pkg"; skips := [false; false] |})
     = AnFsBackend {| fs := tt; dir := "/pkg"; skips := [true] |}
  /\ FsFilters (Client := unit) [true]
       (FsFilters [false] (AnFsBackend {| fs := tt; dir := "/pkg"; skips := [false; false] |}))
     = FsFilters [true] (AnFsBackend {| fs := tt; dir := "/pkg"; skips := [false; false] |}).
Proof.
  apply (options_ignore_other_variants (Client := unit) (Fs := unit)
           (CallFsFilters [true; false])
           (NewPodLogBackend [PodName "pkg"; FsDir "/tmp"])
           {| fs := tt; dir := "/pkg"; skips := [false; false] |}
           [false] [true]).
  cbn. discriminate.
Defined.


(** * Further properties of the parser *)

Section MoreLoop.

Context {Object : Type}.
Variable p : PackageParser Object.
Variable rc : ReadCloser.

(** The loop itself never closes the stream. *)
Lemma parseLoop_no_close (rs : list (result string)) :
  forall pkg : Package Object, ~ In EvClose (callsOf (parseLoop p rc rs pkg)).
Proof.
  induction rs as [|r rs IH]; intros pkg.
  - rewrite parseLoop_nil. cbn. intros [H|[]]. discriminate.
  - loop_turn p rc r rs pkg;
      rewrite ?callsOf_after, ?annotateErr_snd; cbn [callsOf snd app];
      try (destruct (annotation rc)); cbn [In];
      intros H;
      repeat match goal with
             | H : _ \/ _ |- _ => destruct H as [H|H]
             | H : False |- _ => destruct H
             | H : _ = EvClose |- _ => discriminate H
             end;
      eapply IH; eauto.
Qed.

(** The package handed to the loop is only ever appended to; error and
    calls do not depend on it. *)
Lemma parseLoop_acc (rs : list (result string)) :
  forall pkg : Package Object,
  pkgOf (parseLoop p rc rs pkg)
  = {| meta := meta pkg ++ meta (pkgOf (parseLoop p rc rs NewPackage));
       objects := objects pkg ++ objects (pkgOf (parseLoop p rc rs NewPackage)) |}
  /\ errOf (parseLoop p rc rs pkg) = errOf (parseLoop p rc rs NewPackage)
  /\ callsOf (parseLoop p rc rs pkg) = callsOf (parseLoop p rc rs NewPackage).
Proof.
  assert (U : forall pkg : Package Object,
             pkg = {| meta := meta pkg ++ []; objects := objects pkg ++ [] |}).
  { intros [m o]. cbn. rewrite !app_nil_r. reflexivity. }
  induction rs as [|r rs IH]; intros pkg.
  - rewrite !parseLoop_nil. cbn [pkgOf errOf callsOf fst snd meta objects NewPackage].
    auto.
  - destruct r as [c|e].
    + doc_cases p c.
      * rewrite !(parseLoop_blank p rc c rs _ HB),
          !pkgOf_after, !errOf_after, !callsOf_after.
        destruct (IH pkg) as (A & B & C). rewrite C. auto.
      * rewrite !(parseLoop_meta p rc c m rs _ HB HM),
          !pkgOf_after, !errOf_after, !callsOf_after.
        destruct (IH {| meta := meta pkg ++ [m]; objects := objects pkg |})
          as (A & B & C).
        destruct (IH {| meta := meta NewPackage ++ [m];
                        objects := objects (@NewPackage Object) |})
          as (A' & B' & C').
        rewrite A, A', B, B', C, C'. cbn [meta objects NewPackage app].
        rewrite <- app_assoc. auto.
      * rewrite !(parseLoop_obj p rc c em o rs _ HB HM HN HO),
          !pkgOf_after, !errOf_after, !callsOf_after.
        destruct (IH {| meta := meta pkg; objects := objects pkg ++ [o] |})
          as (A & B & C).
        destruct (IH {| meta := meta (@NewPackage Object);
                        objects := objects NewPackage ++ [o] |})
          as (A' & B' & C').
        rewrite A, A', B, B', C, C'. cbn [meta objects NewPackage app].
        rewrite <- app_assoc. auto.
      * rewrite !(parseLoop_obj_fail p rc c em eo rs _ HB HM HN HO).
        cbn [pkgOf errOf callsOf fst snd meta objects NewPackage]. auto.
      * rewrite !(parseLoop_meta_fail p rc c em rs _ HB HM HN).
        cbn [pkgOf errOf callsOf fst snd meta objects NewPackage]. auto.
    + rewrite !parseLoop_read_err.
      cbn [pkgOf errOf callsOf fst snd meta objects NewPackage]. auto.
Qed.

(** Once the loop has ended in an error, what comes later in the stream
    is not looked at. *)
Lemma parseLoop_after_abort (pre post : list (result string)) :
  forall pkg : Package Object,
  errOf (parseLoop p rc pre pkg) <> None ->
  parseLoop p rc (pre ++ post) pkg = parseLoop p rc pre pkg.
Proof.
  induction pre as [|r pre IH]; intros pkg.
  - rewrite parseLoop_nil. cbn. congruence.
  - cbn [app]. destruct r as [c|e].
    + doc_cases p c.
      * rewrite !(parseLoop_blank p rc c _ pkg HB), errOf_after.
        intros H. rewrite (IH _ H). reflexivity.
      * rewrite !(parseLoop_meta p rc c m _ pkg HB HM), errOf_after.
        intros H. rewrite (IH _ H). reflexivity.
      * rewrite !(parseLoop_obj p rc c em o _ pkg HB HM HN HO), errOf_after.
        intros H. rewrite (IH _ H). reflexivity.
      * rewrite !(parseLoop_obj_fail p rc c em eo _ pkg HB HM HN HO). reflexivity.
      * rewrite !(parseLoop_meta_fail p rc c em _ pkg HB HM HN). reflexivity.
    + rewrite !parseLoop_read_err. reflexivity.
Qed.

(** Nor is what follows a read that returned an error, end of stream
    included. *)
Lemma parseLoop_after_read_error (pre post : list (result string)) (e : error) :
  forall pkg : Package Object,
  parseLoop p rc (pre ++ Err e :: post) pkg = parseLoop p rc (pre ++ [Err e]) pkg.
Proof.
  induction pre as [|r pre IH]; intros pkg; cbn [app].
  - rewrite !parseLoop_read_err. reflexivity.
  - destruct r as [c|e'].
    + doc_cases p c.
      * rewrite !(parseLoop_blank p rc c _ pkg HB), IH. reflexivity.
      * rewrite !(parseLoop_meta p rc c m _ pkg HB HM), IH. reflexivity.
      * rewrite !(parseLoop_obj p rc c em o _ pkg HB HM HN HO), IH. reflexivity.
      * rewrite !(parseLoop_obj_fail p rc c em eo _ pkg HB HM HN HO). reflexivity.
      * rewrite !(parseLoop_meta_fail p rc c em _ pkg HB HM HN). reflexivity.
    + rewrite !parseLoop_read_err. reflexivity.
Qed.

(** Blank documents alone leave the package as it is. *)
Lemma parseLoop_all_blank (docs : list string) :
  forall pkg : Package Object,
  Forall (fun c => isEmptyYAML c = true) docs ->
  pkgOf (parseLoop p rc (map Ok docs) pkg) = pkg
  /\ errOf (parseLoop p rc (map Ok docs) pkg) = None
  /\ callsOf (parseLoop p rc (map Ok docs) pkg)
     = map EvRead (map Ok docs) ++ [EvRead (Err EOF)].
Proof.
  induction docs as [|c docs IH]; intros pkg F.
  - cbn [map]. rewrite parseLoop_nil. auto.
  - inversion F as [|? ? B F']; subst. cbn [map].
    rewrite (parseLoop_blank p rc c _ pkg B),
      pkgOf_after, errOf_after, callsOf_after.
    destruct (IH pkg F') as (A1 & A2 & A3). rewrite A3. auto.
Qed.

End MoreLoop.

(** [Parse] on a stream given by its reads and its annotation, through the
    loop run on a stream with that annotation. *)
Lemma Parse_by_loop {Object : Type} (p : PackageParser Object)
    (rs : list (result string)) (anno : option string) :
  Parse p (Some {| reads := rs; annotation := anno |})
  = (pkgOf (parseLoop p {| reads := []; annotation := anno |} rs NewPackage),
     errOf (parseLoop p {| reads := []; annotation := anno |} rs NewPackage),
     callsOf (parseLoop p {| reads := []; annotation := anno |} rs NewPackage)
       ++ [EvClose]).
Proof.
  pose proof (parseLoop_reads_irrelevant p {| reads := []; annotation := anno |}
                rs rs NewPackage) as E.
  cbn [annotation] in E.
  unfold Parse. cbn [reads]. rewrite E. clear E.
  destruct (parseLoop p {| reads := []; annotation := anno |} rs NewPackage)
    as [[? ?] ?].
  reflexivity.
Qed.

(** X1. With a stream, the deferred Close is the last call [Parse] makes
    and the only Close, however the loop ends; without a stream nothing is
    closed. *)
Theorem Parse_closes_once_at_the_end {Object : Type}
    (p : PackageParser Object) (rc : ReadCloser) :
  (exists evs,
      callsOf (Parse p (Some rc)) = evs ++ [EvClose]
      /\ ~ In EvClose evs
      /\ exists r rest, evs = EvRead r :: rest)
  /\ ~ In EvClose (callsOf (Parse p None)).
Proof.
  split; [|intros []].
  exists (callsOf (parseLoop p rc (reads rc) NewPackage)).
  split; [apply callsOf_Parse|]. split; [apply parseLoop_no_close|].
  destruct (reads rc) as [|r rs].
  - rewrite parseLoop_nil. cbn. eauto.
  - loop_turn p rc r rs (@NewPackage Object);
      rewrite ?callsOf_after; cbn [callsOf snd app]; eauto.
Qed.

(** X2. A stream that delivers blank documents only, then ends, parses to
    the empty package without error: every document is read, none is
    decoded. *)
Theorem Parse_blank_stream {Object : Type}
    (p : PackageParser Object) (anno : option string) (docs : list string) :
  Forall (fun c => isEmptyYAML c = true) docs ->
  Parse p (Some {| reads := map Ok docs; annotation := anno |})
  = (NewPackage, None,
     map EvRead (map Ok docs) ++ [EvRead (Err EOF); EvClose]).
Proof.
  intros F. rewrite Parse_by_loop.
  destruct (parseLoop_all_blank p {| reads := []; annotation := anno |}
              docs NewPackage F) as (A & B & C).
  rewrite A, B, C, <- app_assoc. reflexivity.
Qed.

Lemma Parse_blank_stream_witness :
  Parse Fixtures.parser
    (Some {| reads := map Ok ["---"; "  # only a comment"; ""; "..."];
             annotation := Some "pkg.yaml" |})
  = (NewPackage, None,
     map EvRead (map Ok ["---"; "  # only a comment"; ""; "..."])
       ++ [EvRead (Err EOF); EvClose]).
Proof.
  apply (Parse_blank_stream Fixtures.parser (Some "pkg.yaml")
           ["---"; "  # only a comment"; ""; "..."]).
  repeat constructor.
Defined.

(** X3. Once [Parse] returns an error for a stream, it returns the same
    package and error and makes the same calls for any stream that goes on
    after it: nothing is read past the point of failure. *)
Theorem Parse_reads_nothing_after_abort {Object : Type}
    (p : PackageParser Object) (anno : option string)
    (pre post : list (result string)) :
  errOf (Parse p (Some {| reads := pre; annotation := anno |})) <> None ->
  Parse p (Some {| reads := pre ++ post; annotation := anno |})
  = Parse p (Some {| reads := pre; annotation := anno |}).
Proof.
  rewrite !Parse_by_loop. cbn [errOf fst snd]. intros H.
  rewrite (parseLoop_after_abort p _ pre post NewPackage H). reflexivity.
Qed.

Lemma Parse_reads_nothing_after_abort_witness :
  Parse Fixtures.parser
    (Some {| reads := [Ok "kind: Bar"; Ok "kind: Baz"] ++ [Ok "kind: Foo"];
             annotation := None |})
  = Parse Fixtures.parser
      (Some {| reads := [Ok "kind: Bar"; Ok "kind: Baz"]; annotation := None |}).
Proof.
  apply (Parse_reads_nothing_after_abort Fixtures.parser None
           [Ok "kind: Bar"; Ok "kind: Baz"] [Ok "kind: Foo"]).
  discriminate.
Defined.

(** X4. A read whose error is the end of the stream, or wraps it, ends
    [Parse] as running out of reads does: the documents before it give the
    same package and error as they give alone, and what the stream holds
    after it is never looked at. *)
Theorem Parse_stops_at_end_of_stream {Object : Type}
    (p : PackageParser Object) (anno : option string)
    (docs : list string) (post : list (result string)) (e : error) :
  Is (Some e) EOF = true ->
  pkgOf (Parse p (Some {| reads := map Ok docs ++ Err e :: post; annotation := anno |}))
  = pkgOf (Parse p (Some {| reads := map Ok docs; annotation := anno |}))
  /\ errOf (Parse p (Some {| reads := map Ok docs ++ Err e :: post; annotation := anno |}))
     = errOf (Parse p (Some {| reads := map Ok docs; annotation := anno |}))
  /\ Parse p (Some {| reads := map Ok docs ++ Err e :: post; annotation := anno |})
     = Parse p (Some {| reads := map Ok docs ++ [Err e]; annotation := anno |}).
Proof.
  intros HE. rewrite !Parse_by_loop. cbn [pkgOf errOf fst snd].
  set (rc := {| reads := []; annotation := anno |}).
  rewrite (parseLoop_after_read_error p rc (map Ok docs) post e NewPackage).
  split; [|split; [|reflexivity]]; generalize (@NewPackage Object);
    induction docs as [|c docs IH]; intros pkg; cbn [map app];
    try (rewrite parseLoop_read_err, parseLoop_nil, HE; reflexivity);
    doc_cases p c;
    try (rewrite !(parseLoop_blank p rc c _ pkg HB), ?pkgOf_after, ?errOf_after;
         apply IH);
    try (rewrite !(parseLoop_meta p rc c m _ pkg HB HM), ?pkgOf_after, ?errOf_after;
         apply IH);
    try (rewrite !(parseLoop_obj p rc c em o _ pkg HB HM HN HO),
           ?pkgOf_after, ?errOf_after;
         apply IH);
    try (rewrite !(parseLoop_obj_fail p rc c em eo _ pkg HB HM HN HO); reflexivity);
    try (rewrite !(parseLoop_meta_fail p rc c em _ pkg HB HM HN); reflexivity).
Qed.

Lemma Parse_stops_at_end_of_stream_witness :
  pkgOf (Parse Fixtures.parser
           (Some {| reads := map Ok ["kind: Foo"] ++ Err (wrapError "read" EOF) :: [Ok "kind: Baz"];
                    annotation := None |}))
  = pkgOf (Parse Fixtures.parser
             (Some {| reads := map Ok ["kind: Foo"]; annotation := None |}))
  /\ errOf (Parse Fixtures.parser
              (Some {| reads := map Ok ["kind: Foo"] ++ Err (wrapError "read" EOF) :: [Ok "kind: Baz"];
                       annotation := None |}))
     = errOf (Parse Fixtures.parser
                (Some {| reads := map Ok ["kind: Foo"]; annotation := None |}))
  /\ Parse Fixtures.parser
       (Some {| reads := map Ok ["kind: Foo"] ++ Err (wrapError "read" EOF) :: [Ok "kind: Baz"];
                annotation := None |})
     = Parse Fixtures.parser
         (Some {| reads := map Ok ["kind: Foo"] ++ [Err (wrapError "read" EOF)];
                  annotation := None |}).
Proof.
  apply (Parse_stops_at_end_of_stream Fixtures.parser None ["kind: Foo"]
           [Ok "kind: Baz"] (wrapError "read" EOF)).
  reflexivity.
Defined.

(** X5. When the first part of a stream is made of documents and parses
    without error, the whole stream parses to the package of the first
    part followed, list by list, by the package of the rest, and ends as
    the rest does. *)
Theorem Parse_concatenation {Object : Type}
    (p : PackageParser Object) (anno : option string)
    (docs : list string) (rs : list (result string)) :
  errOf (Parse p (Some {| reads := map Ok docs; annotation := anno |})) = None ->
  GetMeta (pkgOf (Parse p (Some {| reads := map Ok docs ++ rs; annotation := anno |})))
  = GetMeta (pkgOf (Parse p (Some {| reads := map Ok docs; annotation := anno |})))
    ++ GetMeta (pkgOf (Parse p (Some {| reads := rs; annotation := anno |})))
  /\ GetObjects (pkgOf (Parse p (Some {| reads := map Ok docs ++ rs; annotation := anno |})))
     = GetObjects (pkgOf (Parse p (Some {| reads := map Ok docs; annotation := anno |})))
       ++ GetObjects (pkgOf (Parse p (Some {| reads := rs; annotation := anno |})))
  /\ errOf (Parse p (Some {| reads := map Ok docs ++ rs; annotation := anno |}))
     = errOf (Parse p (Some {| reads := rs; annotation := anno |})).
Proof.
  rewrite !Parse_by_loop. cbn [pkgOf errOf fst snd]. intros H.
  set (rc := {| reads := []; annotation := anno |}) in *.
  destruct (parseLoop_prefix p rc docs rs NewPackage H) as (P1 & P2).
  destruct (parseLoop_acc p rc rs (pkgOf (parseLoop p rc (map Ok docs) NewPackage)))
    as (A & B & _).
  unfold GetMeta, GetObjects. rewrite P1, P2, A, B. cbn [meta objects]. auto.
Qed.

Lemma Parse_concatenation_witness :
  GetMeta (pkgOf (Parse Fixtures.parser
     (Some {| reads := map Ok ["kind: Foo"; "kind: Bar"] ++ [Ok "kind: Bar"; Ok "kind: Foo"];
              annotation := None |})))
  = GetMeta (pkgOf (Parse Fixtures.parser
       (Some {| reads := map Ok ["kind: Foo"; "kind: Bar"]; annotation := None |})))
    ++ GetMeta (pkgOf (Parse Fixtures.parser
         (Some {| reads := [Ok "kind: Bar"; Ok "kind: Foo"]; annotation := None |})))
  /\ GetObjects (pkgOf (Parse Fixtures.parser
       (Some {| reads := map Ok ["kind: Foo"; "kind: Bar"] ++ [Ok "kind: Bar"; Ok "kind: Foo"];
                annotation := None |})))
     = GetObjects (pkgOf (Parse Fixtures.parser
         (Some {| reads := map Ok ["kind: Foo"; "kind: Bar"]; annotation := None |})))
       ++ GetObjects (pkgOf (Parse Fixtures.parser
            (Some {| reads := [Ok "kind: Bar"; Ok "kind: Foo"]; annotation := None |})))
  /\ errOf (Parse Fixtures.parser
       (Some {| reads := map Ok ["kind: Foo"; "kind: Bar"] ++ [Ok "kind: Bar"; Ok "kind: Foo"];
                annotation := None |}))
     = errOf (Parse Fixtures.parser
         (Some {| reads := [Ok "kind: Bar"; Ok "kind: Foo"]; annotation := None |})).
Proof.
  apply (Parse_concatenation Fixtures.parser None ["kind: Foo"; "kind: Bar"]
           [Ok "kind: Bar"; Ok "kind: Foo"]).
  reflexivity.
Defined.

(** * Further properties of the blank-document filter *)

Lemma SplitLines_not_nil (s : string) : Go.SplitLines s <> [].
Proof.
  induction s as [|c s IH]; cbn [Go.SplitLines]; [discriminate|].
  destruct (Ascii.eqb c Go.newline); [discriminate|].
  destruct (Go.SplitLines s); discriminate.
Qed.

Lemma SplitLines_join (a b : string) :
  Go.SplitLines (a ++ String Go.newline b)%string
  = Go.SplitLines a ++ Go.SplitLines b.
Proof.
  induction a as [|c a IH]; cbn [append Go.SplitLines].
  - rewrite Ascii.eqb_refl. reflexivity.
  - destruct (Ascii.eqb c Go.newline); rewrite IH; [reflexivity|].
    pose proof (SplitLines_not_nil a) as N.
    destruct (Go.SplitLines a); [contradiction|reflexivity].
Qed.

Lemma isEmptyYAML_lines_app (l1 l2 : list string) :
  isEmptyYAML_lines (l1 ++ l2) = isEmptyYAML_lines l1 && isEmptyYAML_lines l2.
Proof.
  induction l1 as [|line l1 IH]; cbn [app isEmptyYAML_lines]; [reflexivity|].
  destruct (negb (Go.TrimLeftFunc line Go.IsSpace =? "")
            && negb (Go.TrimLeftFunc line Go.IsSpace =? "---")
            && negb (Go.TrimLeftFunc line Go.IsSpace =? "...")
            && negb (Go.HasPrefix (Go.TrimLeftFunc line Go.IsSpace) "#"));
    [reflexivity|exact IH].
Qed.

(** X6. Blankness goes line by line: two texts joined by a newline are
    blank exactly when both are; the empty text is blank. *)
Theorem isEmptyYAML_join (a b : string) :
  isEmptyYAML (a ++ String Go.newline b)%string = isEmptyYAML a && isEmptyYAML b
  /\ isEmptyYAML "" = true.
Proof.
  split; [|reflexivity].
  unfold isEmptyYAML. rewrite SplitLines_join. apply isEmptyYAML_lines_app.
Qed.

(** X7. A line that starts with "#" after spaces or tabs is blank,
    whatever follows the "#" on that line. *)
Theorem isEmptyYAML_comment_line (ws t : string) :
  blanks ws = true ->
  Go.SplitLines t = [t] ->
  isEmptyYAML (ws ++ String "#" t)%string = true.
Proof.
  intros B T. unfold isEmptyYAML.
  rewrite (SplitLines_blanks ws (String "#" t) B)
    by (apply SplitLines_cons; [reflexivity|exact T]).
  cbn [isEmptyYAML_lines].
  rewrite (TrimLeftFunc_blanks ws _ B), TrimLeftFunc_keeps by reflexivity.
  unfold Go.HasPrefix. destruct t; reflexivity.
Qed.

Lemma isEmptyYAML_comment_line_witness :
  isEmptyYAML ("    " ++ String "#" " kind: Foo --- ...")%string = true.
Proof.
  apply (isEmptyYAML_comment_line "    " " kind: Foo --- ..."); reflexivity.
Defined.

(** * Properties of the backends *)

Section LastSetting.

Context {Client FilterFn : Type}.
Variables calls1 calls2 : list (OptionCall Client FilterFn).

Lemma lastFsDir_app : forall d,
  lastFsDir calls2 (lastFsDir calls1 d) = lastFsDir (calls1 ++ calls2) d.
Proof.
  induction calls1 as [|c cs IH]; intros d; [reflexivity|].
  destruct c; cbn [app lastFsDir]; apply IH.
Qed.

Lemma lastFsFilters_app : forall d,
  lastFsFilters calls2 (lastFsFilters calls1 d) = lastFsFilters (calls1 ++ calls2) d.
Proof.
  induction calls1 as [|c cs IH]; intros d; [reflexivity|].
  destruct c; cbn [app lastFsFilters]; apply IH.
Qed.

Lemma lastPodClient_app : forall d,
  lastPodClient calls2 (lastPodClient calls1 d) = lastPodClient (calls1 ++ calls2) d.
Proof.
  induction calls1 as [|c cs IH]; intros d; [reflexivity|].
  destruct c; cbn [app lastPodClient]; apply IH.
Qed.

Lemma lastPodName_app : forall d,
  lastPodName calls2 (lastPodName calls1 d) = lastPodName (calls1 ++ calls2) d.
Proof.
  induction calls1 as [|c cs IH]; intros d; [reflexivity|].
  destruct c; cbn [app lastPodName]; apply IH.
Qed.

Lemma lastPodNamespace_app : forall d,
  lastPodNamespace calls2 (lastPodNamespace calls1 d)
  = lastPodNamespace (calls1 ++ calls2) d.
Proof.
  induction calls1 as [|c cs IH]; intros d; [reflexivity|].
  destruct c; cbn [app lastPodNamespace]; apply IH.
Qed.

End LastSetting.

Section BackendFacts.

Context {Client Fs FilterFn : Type}.
Variable streamLogs : Client -> string -> string -> option ReadCloser * option error.
Variable NewFsReadCloser : Fs -> string -> list FilterFn -> option ReadCloser * option error.
Variable yamlDocs : string -> list (result string).

Lemma applyOptions_call (c : OptionCall Client FilterFn)
    (calls : list (OptionCall Client FilterFn)) (b : Backend Client Fs FilterFn) :
  applyOptions b (optionsOf (c :: calls))
  = applyOptions (optionOf c b) (optionsOf calls).
Proof. reflexivity. Qed.

Lemma applyOptions_app (b : Backend Client Fs FilterFn) (bo1 bo2 : list (BackendOption Client Fs FilterFn)) :
  applyOptions (applyOptions b bo1) bo2 = applyOptions b (bo1 ++ bo2).
Proof. unfold applyOptions. rewrite fold_left_app. reflexivity. Qed.

Lemma optionsOf_app (calls1 calls2 : list (OptionCall Client FilterFn)) :
  optionsOf (Fs := Fs) (calls1 ++ calls2) = optionsOf calls1 ++ optionsOf calls2.
Proof. apply map_app. Qed.

Lemma applyOptions_fs (calls : list (OptionCall Client FilterFn)) :
  forall f : FsBackend Fs FilterFn,
  applyOptions (AnFsBackend f) (optionsOf calls)
  = (AnFsBackend {| fs := fs f;
                    dir := lastFsDir calls (dir f);
                    skips := lastFsFilters calls (skips f) |} : Backend Client Fs FilterFn).
Proof.
  induction calls as [|c calls IH]; intros f.
  - destruct f; reflexivity.
  - rewrite applyOptions_call.
    destruct c; cbn [optionOf PodName PodNamespace PodClient FsDir FsFilters
                     lastFsDir lastFsFilters];
      rewrite IH; reflexivity.
Qed.

Lemma applyOptions_podlog (calls : list (OptionCall Client FilterFn)) :
  forall pl : PodLogBackend Client,
  applyOptions (APodLogBackend pl) (optionsOf calls)
  = (APodLogBackend {| client := lastPodClient calls (client pl);
                       name := lastPodName calls (name pl);
                       namespace := lastPodNamespace calls (namespace pl) |} : Backend Client Fs FilterFn).
Proof.
  induction calls as [|c calls IH]; intros pl.
  - destruct pl; reflexivity.
  - rewrite applyOptions_call.
    destruct c; cbn [optionOf PodName PodNamespace PodClient FsDir FsFilters
                     lastPodClient lastPodName lastPodNamespace];
      rewrite IH; reflexivity.
Qed.

(** X8. The options that the package builds never change which variant a
    backend is, however many are applied. *)
Theorem options_keep_variant (calls : list (OptionCall Client FilterFn)) (b : Backend Client Fs FilterFn) :
  variantOf (applyOptions b (optionsOf calls)) = variantOf b.
Proof.
  revert b. induction calls as [|c calls IH]; intros b; [reflexivity|].
  rewrite applyOptions_call, IH. destruct c, b; reflexivity.
Qed.

(** X9. Of two options that set the same field the one applied last
    wins; two options that set different fields can be applied in either
    order. *)
Theorem options_override_or_commute (c1 c2 : OptionCall Client FilterFn) (b : Backend Client Fs FilterFn) :
  optionOf c1 (optionOf c2 b)
  = if sameField c1 c2 then optionOf c1 b else optionOf c2 (optionOf c1 b).
Proof. destruct c1, c2, b; reflexivity. Qed.

(** X10. An FsBackend built with some options and initialized with more
    opens the directory and the filters set last over both lists (the
    empty directory and no filter when none was set), on the filesystem it
    was built with; it returns what NewFsReadCloser returns. *)
Theorem Init_FsBackend (fs0 : Fs) (calls1 calls2 : list (OptionCall Client FilterFn)) :
  Init streamLogs NewFsReadCloser yamlDocs
    (NewFsBackend fs0 (optionsOf calls1)) (optionsOf calls2)
  = (AnFsBackend {| fs := fs0;
                    dir := lastFsDir (calls1 ++ calls2) "";
                    skips := lastFsFilters (calls1 ++ calls2) [] |},
     Returned
       (fst (NewFsReadCloser fs0 (lastFsDir (calls1 ++ calls2) "")
               (lastFsFilters (calls1 ++ calls2) [])))
       (snd (NewFsReadCloser fs0 (lastFsDir (calls1 ++ calls2) "")
               (lastFsFilters (calls1 ++ calls2) [])))).
Proof.
  unfold NewFsBackend. rewrite applyOptions_fs. unfold Init.
  rewrite applyOptions_fs. cbn [fs dir skips openSource].
  rewrite lastFsDir_app, lastFsFilters_app.
  destruct (NewFsReadCloser fs0 _ _). reflexivity.
Qed.

(** X11. A PodLogBackend built with some options and initialized with more
    panics when the client that the PodClient options set last is nil, or
    when no PodClient option is among them. Otherwise it streams the logs,
    with the client set last, of the pod whose namespace and name were set
    last (empty when not set); an error of the stream is returned as it
    is, with no reader. *)
Theorem Init_PodLogBackend (calls1 calls2 : list (OptionCall Client FilterFn)) :
  Init streamLogs NewFsReadCloser yamlDocs
    (NewPodLogBackend (optionsOf calls1)) (optionsOf calls2)
  = (APodLogBackend {| client := lastPodClient (calls1 ++ calls2) None;
                       name := lastPodName (calls1 ++ calls2) "";
                       namespace := lastPodNamespace (calls1 ++ calls2) "" |},
     match lastPodClient (calls1 ++ calls2) None with
     | None => Panicked
     | Some k =>
       match snd (streamLogs k (lastPodNamespace (calls1 ++ calls2) "")
                    (lastPodName (calls1 ++ calls2) "")) with
       | Some e => Returned None (Some e)
       | None =>
         Returned (fst (streamLogs k (lastPodNamespace (calls1 ++ calls2) "")
                          (lastPodName (calls1 ++ calls2) ""))) None
       end
     end).
Proof.
  unfold NewPodLogBackend. rewrite applyOptions_podlog. unfold Init.
  rewrite applyOptions_podlog. cbn [client name namespace openSource].
  rewrite lastPodClient_app, lastPodName_app, lastPodNamespace_app.
  destruct (lastPodClient (calls1 ++ calls2) None) as [k|]; [|reflexivity].
  destruct (streamLogs k _ _) as [reader [e|]]; reflexivity.
Qed.

(** X12. An EchoBackend has no setting that the package's options reach:
    whatever options it is initialized with, it stays as built and returns,
    without error, a stream without annotation over its string. A
    NopBackend returns no stream and no error, and does not run the
    options it is given. *)
Theorem Init_EchoBackend_NopBackend (s : string) (calls : list (OptionCall Client FilterFn))
    (bo bo' : list (BackendOption Client Fs FilterFn)) :
  Init streamLogs NewFsReadCloser yamlDocs (NewEchoBackend s) (optionsOf calls)
  = (NewEchoBackend s, Returned (Some (openStream yamlDocs s None)) None)
  /\ Init streamLogs NewFsReadCloser yamlDocs (NewNopBackend bo) bo'
     = (ANopBackend, Returned None None).
Proof.
  split; [|reflexivity].
  unfold NewEchoBackend, Init.
  assert (E : forall b : Backend Client Fs FilterFn, variantOf b = VEcho ->
              applyOptions b (optionsOf calls) = b).
  { induction calls as [|c cs IH]; intros b V; [reflexivity|].
    rewrite applyOptions_call.
    assert (O : optionOf c b = b) by (destruct c, b; try discriminate V; reflexivity).
    rewrite O. apply IH. exact V. }
  rewrite E by reflexivity. reflexivity.
Qed.

End BackendFacts.

(** * Properties of the recorder of managed resource state *)

Section RecorderFacts.

Variable Item : Type.
Variable GroupVersionKind : Type.
Variable TypeReady TypeSynced ConditionTrue : string.
Variable conditionsOf : Item -> result (list Managed.Condition).
Variable gvkString : GroupVersionKind -> string.

Let ready := Managed.isReady TypeReady ConditionTrue.
Let synced := Managed.isSynced TypeSynced ConditionTrue.
Let syncedOnly := fun c => negb (ready c) && synced c.

Lemma countConditions_turn (c : Managed.Condition) (cs : list Managed.Condition)
    (numReady numSynced : nat) :
  Managed.countConditions TypeReady TypeSynced ConditionTrue (c :: cs)
    numReady numSynced
  = if ready c
    then Managed.countConditions TypeReady TypeSynced ConditionTrue cs
           (S numReady) numSynced
    else if synced c
    then Managed.countConditions TypeReady TypeSynced ConditionTrue cs
           numReady (S numSynced)
    else Managed.countConditions TypeReady TypeSynced ConditionTrue cs
           numReady numSynced.
Proof. reflexivity. Qed.

Lemma countConditions_counts (conditions : list Managed.Condition) :
  forall numReady numSynced,
  Managed.countConditions TypeReady TypeSynced ConditionTrue conditions
    numReady numSynced
  = (numReady + List.length (filter ready conditions),
     numSynced + List.length (filter syncedOnly conditions)).
Proof.
  induction conditions as [|c cs IH]; intros a b.
  - cbn. rewrite !Nat.add_0_r. reflexivity.
  - rewrite countConditions_turn. cbn [filter]. unfold syncedOnly at 1.
    destruct (ready c); [|destruct (synced c)];
      rewrite IH; cbn [negb andb List.length]; f_equal; lia.
Qed.

Lemma countItems_counts (items : list Item) :
  forall numReady numSynced logged,
  Managed.countItems Item TypeReady TypeSynced ConditionTrue conditionsOf items
    numReady numSynced logged
  = (numReady + List.length (filter ready (Managed.readable conditionsOf items)),
     numSynced + List.length (filter syncedOnly (Managed.readable conditionsOf items)),
     logged ++ Managed.failures conditionsOf items).
Proof.
  induction items as [|o items IH]; intros a b l.
  - cbn. rewrite !Nat.add_0_r, app_nil_r. reflexivity.
  - cbn [Managed.countItems Managed.readable Managed.failures flat_map].
    fold (Managed.readable conditionsOf items).
    fold (Managed.failures conditionsOf items).
    destruct (conditionsOf o) as [conditions|err].
    + rewrite countConditions_counts, IH, !filter_app, !length_app.
      cbn [app]. rewrite !Nat.add_assoc. reflexivity.
    + rewrite IH. cbn [filter List.length app]. rewrite <- app_assoc.
      reflexivity.
Qed.

Lemma SetGauge_same (g : Managed.GaugeVec) (label : string) (v : nat) :
  Managed.SetGauge g label v label = Some v.
Proof. unfold Managed.SetGauge. rewrite String.eqb_refl. reflexivity. Qed.

Lemma SetGauge_other (g : Managed.GaugeVec) (label l : string) (v : nat) :
  l <> label -> Managed.SetGauge g label v l = g l.
Proof.
  intros N. unfold Managed.SetGauge.
  destruct (String.eqb_spec l label); [contradiction|reflexivity].
Qed.

(** The recorder after a [Record] whose listing succeeds. *)
Lemma Record_after_listing (list_ : GroupVersionKind -> result (list Item))
    (r : Managed.MRStateRecorder) (gvk : GroupVersionKind) (items : list Item) :
  list_ gvk = Ok items ->
  Managed.Record_ Item GroupVersionKind TypeReady TypeSynced ConditionTrue
    list_ conditionsOf gvkString r gvk
  = ({| Managed.mrExists :=
          Managed.SetGauge (Managed.mrExists r) (gvkString gvk) (List.length items);
        Managed.mrReady :=
          Managed.SetGauge (Managed.mrReady r) (gvkString gvk)
            (List.length (filter ready (Managed.readable conditionsOf items)));
        Managed.mrSynced :=
          Managed.SetGauge (Managed.mrSynced r) (gvkString gvk)
            (List.length (filter syncedOnly (Managed.readable conditionsOf items))) |},
     Managed.failures conditionsOf items).
Proof.
  intros L. unfold Managed.Record_. rewrite L, countItems_counts. reflexivity.
Qed.

(** X13. When the listing succeeds, [Record] sets, for the label of the
    kind: the exists gauge to the number of items listed, readable or not;
    the ready gauge to the number of conditions of type Ready and status
    True among the conditions of the items whose status can be read; the
    synced gauge to the number of those conditions of type Synced and
    status True that are not counted as ready. It logs the errors of the
    items whose status cannot be read, in list order. *)
Theorem Record_counts (list_ : GroupVersionKind -> result (list Item))
    (r : Managed.MRStateRecorder) (gvk : GroupVersionKind) (items : list Item) :
  list_ gvk = Ok items ->
  Managed.mrExists
    (fst (Managed.Record_ Item GroupVersionKind TypeReady TypeSynced ConditionTrue
            list_ conditionsOf gvkString r gvk)) (gvkString gvk)
  = Some (List.length items)
  /\ Managed.mrReady
       (fst (Managed.Record_ Item GroupVersionKind TypeReady TypeSynced ConditionTrue
               list_ conditionsOf gvkString r gvk)) (gvkString gvk)
     = Some (List.length (filter (Managed.isReady TypeReady ConditionTrue)
                            (Managed.readable conditionsOf items)))
  /\ Managed.mrSynced
       (fst (Managed.Record_ Item GroupVersionKind TypeReady TypeSynced ConditionTrue
               list_ conditionsOf gvkString r gvk)) (gvkString gvk)
     = Some (List.length
               (filter (fun c => negb (Managed.isReady TypeReady ConditionTrue c)
                                 && Managed.isSynced TypeSynced ConditionTrue c)
                  (Managed.readable conditionsOf items)))
  /\ snd (Managed.Record_ Item GroupVersionKind TypeReady TypeSynced ConditionTrue
            list_ conditionsOf gvkString r gvk)
     = Managed.failures conditionsOf items.
Proof.
  intros L. rewrite (Record_after_listing list_ r gvk items L).
  cbn [fst snd Managed.mrExists Managed.mrReady Managed.mrSynced].
  rewrite !SetGauge_same. auto.
Qed.

(** X14. [Record] touches the gauges at the label of the kind only: at any
    other label the three gauges are as before, whether the listing
    succeeds or not. *)
Theorem Record_other_labels (list_ : GroupVersionKind -> result (list Item))
    (r : Managed.MRStateRecorder) (gvk : GroupVersionKind) (l : string) :
  l <> gvkString gvk ->
  Managed.mrExists
    (fst (Managed.Record_ Item GroupVersionKind TypeReady TypeSynced ConditionTrue
            list_ conditionsOf gvkString r gvk)) l
  = Managed.mrExists r l
  /\ Managed.mrReady
       (fst (Managed.Record_ Item GroupVersionKind TypeReady TypeSynced ConditionTrue
               list_ conditionsOf gvkString r gvk)) l
     = Managed.mrReady r l
  /\ Managed.mrSynced
       (fst (Managed.Record_ Item GroupVersionKind TypeReady TypeSynced ConditionTrue
               list_ conditionsOf gvkString r gvk)) l
     = Managed.mrSynced r l.
Proof.
  intros N. unfold Managed.Record_.
  destruct (list_ gvk) as [items|e]; [|auto].
  rewrite countItems_counts.
  cbn [fst Managed.mrExists Managed.mrReady Managed.mrSynced].
  rewrite !SetGauge_other by exact N. auto.
Qed.

(** X15. The gauges are set, not added to: when a second listing succeeds,
    every gauge reads after the second [Record] as if the first had not
    been made. When the listing fails, [Record] leaves the recorder as it
    is and logs the error. *)
Theorem Record_overwrites (list1 list2 : GroupVersionKind -> result (list Item))
    (r : Managed.MRStateRecorder) (gvk : GroupVersionKind) (items : list Item)
    (l : string) :
  list2 gvk = Ok items ->
  Managed.mrExists
    (fst (Managed.Record_ Item GroupVersionKind TypeReady TypeSynced ConditionTrue
            list2 conditionsOf gvkString
            (fst (Managed.Record_ Item GroupVersionKind TypeReady TypeSynced
                    ConditionTrue list1 conditionsOf gvkString r gvk)) gvk)) l
  = Managed.mrExists
      (fst (Managed.Record_ Item GroupVersionKind TypeReady TypeSynced ConditionTrue
              list2 conditionsOf gvkString r gvk)) l
  /\ Managed.mrReady
       (fst (Managed.Record_ Item GroupVersionKind TypeReady TypeSynced ConditionTrue
               list2 conditionsOf gvkString
               (fst (Managed.Record_ Item GroupVersionKind TypeReady TypeSynced
                       ConditionTrue list1 conditionsOf gvkString r gvk)) gvk)) l
     = Managed.mrReady
         (fst (Managed.Record_ Item GroupVersionKind TypeReady TypeSynced ConditionTrue
                 list2 conditionsOf gvkString r gvk)) l
  /\ Managed.mrSynced
       (fst (Managed.Record_ Item GroupVersionKind TypeReady TypeSynced ConditionTrue
               list2 conditionsOf gvkString
               (fst (Managed.Record_ Item GroupVersionKind TypeReady TypeSynced
                       ConditionTrue list1 conditionsOf gvkString r gvk)) gvk)) l
     = Managed.mrSynced
         (fst (Managed.Record_ Item GroupVersionKind TypeReady TypeSynced ConditionTrue
                 list2 conditionsOf gvkString r gvk)) l
  /\ (forall e, list1 gvk = Err e ->
        Managed.Record_ Item GroupVersionKind TypeReady TypeSynced ConditionTrue
          list1 conditionsOf gvkString r gvk = (r, [e])).
Proof.
  intros L2.
  split; [|split; [|split]];
    [| | |intros e L1; unfold Managed.Record_; rewrite L1; reflexivity].
  all: unfold Managed.Record_ at 1 3; rewrite L2, !countItems_counts;
    cbn [fst Managed.mrExists Managed.mrReady Managed.mrSynced];
    destruct (String.eqb_spec l (gvkString gvk)) as [->|N];
    [rewrite !SetGauge_same; reflexivity|].
  all: rewrite !SetGauge_other by exact N;
    unfold Managed.Record_; destruct (list1 gvk) as [items1|e1]; [|reflexivity];
    rewrite countItems_counts;
    cbn [fst Managed.mrExists Managed.mrReady Managed.mrSynced];
    rewrite SetGauge_other by exact N; reflexivity.
Qed.

(** X16. When Ready and Synced are different condition types, the synced
    gauge is the number of conditions of type Synced and status True of
    the readable items, and no condition is counted twice: the two counts
    together are at most the number of conditions read. *)
Theorem Record_synced_count (list_ : GroupVersionKind -> result (list Item))
    (r : Managed.MRStateRecorder) (gvk : GroupVersionKind) (items : list Item) :
  TypeReady <> TypeSynced ->
  list_ gvk = Ok items ->
  Managed.mrSynced
    (fst (Managed.Record_ Item GroupVersionKind TypeReady TypeSynced ConditionTrue
            list_ conditionsOf gvkString r gvk)) (gvkString gvk)
  = Some (List.length (filter (Managed.isSynced TypeSynced ConditionTrue)
                         (Managed.readable conditionsOf items)))
  /\ List.length (filter (Managed.isReady TypeReady ConditionTrue)
                    (Managed.readable conditionsOf items))
     + List.length (filter (Managed.isSynced TypeSynced ConditionTrue)
                      (Managed.readable conditionsOf items))
     <= List.length (Managed.readable conditionsOf items).
Proof.
  intros D L.
  rewrite (Record_after_listing list_ r gvk items L).
  cbn [fst Managed.mrSynced]. rewrite SetGauge_same. unfold syncedOnly, ready, synced.
  assert (E : forall c, negb (Managed.isReady TypeReady ConditionTrue c)
                        && Managed.isSynced TypeSynced ConditionTrue c
                        = Managed.isSynced TypeSynced ConditionTrue c).
  { intros c. unfold Managed.isReady, Managed.isSynced.
    destruct (String.eqb_spec (Managed.Type_ c) TypeReady) as [E1|N1];
      destruct (String.eqb_spec (Managed.Type_ c) TypeSynced) as [E2|N2];
      destruct (String.eqb (Managed.Status c) ConditionTrue);
      cbn; try reflexivity; congruence. }
  rewrite (filter_ext _ _ E). split; [reflexivity|].
  induction (Managed.readable conditionsOf items) as [|c cs IH]; [cbn; lia|].
  cbn [filter]. specialize (E c).
  destruct (Managed.isReady TypeReady ConditionTrue c),
    (Managed.isSynced TypeSynced ConditionTrue c);
    cbn [negb andb] in E; try discriminate E; cbn [List.length]; lia.
Qed.

End RecorderFacts.

Lemma Record_counts_witness :
  Managed.mrExists (fst (RecorderFixtures.record RecorderFixtures.listBuckets
                           RecorderFixtures.fresh "Bucket")) "Bucket" = Some 3
  /\ Managed.mrReady (fst (RecorderFixtures.record RecorderFixtures.listBuckets
                             RecorderFixtures.fresh "Bucket")) "Bucket" = Some 1
  /\ Managed.mrSynced (fst (RecorderFixtures.record RecorderFixtures.listBuckets
                              RecorderFixtures.fresh "Bucket")) "Bucket" = Some 2
  /\ snd (RecorderFixtures.record RecorderFixtures.listBuckets
            RecorderFixtures.fresh "Bucket")
     = [errorString "status: not an object"].
Proof.
  exact (Record_counts RecorderFixtures.Item string "Ready" "Synced" "True"
           RecorderFixtures.conditionsOf RecorderFixtures.gvkString
           RecorderFixtures.listBuckets RecorderFixtures.fresh "Bucket"
           RecorderFixtures.buckets eq_refl).
Defined.

Lemma Record_other_labels_witness :
  Managed.mrExists (fst (RecorderFixtures.record RecorderFixtures.listBuckets
                           RecorderFixtures.fresh "Bucket")) "Queue" = None
  /\ Managed.mrReady (fst (RecorderFixtures.record RecorderFixtures.listBuckets
                             RecorderFixtures.fresh "Bucket")) "Queue" = None
  /\ Managed.mrSynced (fst (RecorderFixtures.record RecorderFixtures.listBuckets
                              RecorderFixtures.fresh "Bucket")) "Queue" = None.
Proof.
  apply (Record_other_labels RecorderFixtures.Item string "Ready" "Synced" "True"
           RecorderFixtures.conditionsOf RecorderFixtures.gvkString
           RecorderFixtures.listBuckets RecorderFixtures.fresh "Bucket" "Queue").
  discriminate.
Defined.

Lemma Record_overwrites_witness :
  Managed.mrExists
    (fst (RecorderFixtures.record RecorderFixtures.listNothing
            (fst (RecorderFixtures.record RecorderFixtures.listBuckets
                    RecorderFixtures.fresh "Bucket")) "Bucket")) "Bucket"
  = Managed.mrExists
      (fst (RecorderFixtures.record RecorderFixtures.listNothing
              RecorderFixtures.fresh "Bucket")) "Bucket"
  /\ Managed.mrReady
       (fst (RecorderFixtures.record RecorderFixtures.listNothing
               (fst (RecorderFixtures.record RecorderFixtures.listBuckets
                       RecorderFixtures.fresh "Bucket")) "Bucket")) "Bucket"
     = Managed.mrReady
         (fst (RecorderFixtures.record RecorderFixtures.listNothing
                 RecorderFixtures.fresh "Bucket")) "Bucket"
  /\ Managed.mrSynced
       (fst (RecorderFixtures.record RecorderFixtures.listNothing
               (fst (RecorderFixtures.record RecorderFixtures.listBuckets
                       RecorderFixtures.fresh "Bucket")) "Bucket")) "Bucket"
     = Managed.mrSynced
         (fst (RecorderFixtures.record RecorderFixtures.listNothing
                 RecorderFixtures.fresh "Bucket")) "Bucket"
  /\ (forall e, RecorderFixtures.listBuckets "Bucket" = Err e ->
        RecorderFixtures.record RecorderFixtures.listBuckets
          RecorderFixtures.fresh "Bucket" = (RecorderFixtures.fresh, [e])).
Proof.
  exact (Record_overwrites RecorderFixtures.Item string "Ready" "Synced" "True"
           RecorderFixtures.conditionsOf RecorderFixtures.gvkString
           RecorderFixtures.listBuckets RecorderFixtures.listNothing
           RecorderFixtures.fresh "Bucket" [] "Bucket" eq_refl).
Defined.

Lemma Record_synced_count_witness :
  Managed.mrSynced (fst (RecorderFixtures.record RecorderFixtures.listBuckets
                           RecorderFixtures.fresh "Bucket")) "Bucket" = Some 2
  /\ 1 + 2 <= 4.
Proof.
  apply (Record_synced_count RecorderFixtures.Item string "Ready" "Synced" "True"
           RecorderFixtures.conditionsOf RecorderFixtures.gvkString
           RecorderFixtures.listBuckets RecorderFixtures.fresh "Bucket"
           RecorderFixtures.buckets).
  - discriminate.
  - reflexivity.
Defined.

(** * What the parser does with the reads it reaches *)

Section Forward.

Context {Object : Type}.
Variable p : PackageParser Object.
Variable rc : ReadCloser.

Lemma parseLoop_starts_with_read (rs : list (result string)) (pkg : Package Object) :
  exists r rest, callsOf (parseLoop p rc rs pkg) = EvRead r :: rest.
Proof.
  destruct rs as [|r rs].
  - rewrite parseLoop_nil. cbn. eauto.
  - loop_turn p rc r rs pkg; rewrite ?callsOf_after; cbn [callsOf snd app]; eauto.
Qed.

Lemma readsOf_app (l1 l2 : list Event) :
  readsOf (l1 ++ l2) = readsOf l1 ++ readsOf l2.
Proof.
  induction l1 as [|ev l1 IH]; [reflexivity|].
  destruct ev; cbn [app readsOf]; rewrite IH; reflexivity.
Qed.

(** Documents that decode are got through without error. *)
Lemma parseLoop_decodes (docs : list string) :
  forall pkg : Package Object,
  Forall (decodes p) docs ->
  errOf (parseLoop p rc (map Ok docs) pkg) = None.
Proof.
  induction docs as [|c docs IH]; intros pkg F; cbn [map].
  - rewrite parseLoop_nil. reflexivity.
  - inversion F as [|? ? D F']; subst.
    doc_cases p c.
    + rewrite (parseLoop_blank p rc c _ pkg HB), errOf_after. apply IH, F'.
    + rewrite (parseLoop_meta p rc c m _ pkg HB HM), errOf_after. apply IH, F'.
    + rewrite (parseLoop_obj p rc c em o _ pkg HB HM HN HO), errOf_after.
      apply IH, F'.
    + exfalso. destruct D as [D|[(m & D)|(e & o & D1 & _ & D3)]]; congruence.
    + exfalso. destruct D as [D|[(m & D)|(e & o & D1 & D2 & _)]]; congruence.
Qed.

(** The calls made on documents that decode are their reads and decodes;
    the calls for the rest of the stream follow. *)
Lemma parseLoop_calls_prefix (docs : list string) (rs : list (result string)) :
  forall pkg : Package Object,
  Forall (decodes p) docs ->
  exists pre,
    callsOf (parseLoop p rc (map Ok docs ++ rs) pkg)
    = pre ++ callsOf (parseLoop p rc rs NewPackage)
    /\ readsOf pre = map Ok docs
    /\ annotated pre = []
    /\ ~ In EvClose pre.
Proof.
  induction docs as [|c docs IH]; intros pkg F; cbn [map app].
  - exists []. destruct (parseLoop_acc p rc rs pkg) as (_ & _ & C).
    rewrite C. cbn. auto.
  - inversion F as [|? ? D F']; subst.
    doc_cases p c.
    + rewrite (parseLoop_blank p rc c _ pkg HB), callsOf_after.
      destruct (IH pkg F') as (pre & E & R & A & N). rewrite E.
      exists ([EvRead (Ok c)] ++ pre). rewrite <- app_assoc.
      cbn [app readsOf annotated In]. rewrite R, A.
      repeat split; auto. intros [H|H]; [discriminate|auto].
    + rewrite (parseLoop_meta p rc c m _ pkg HB HM), callsOf_after.
      destruct (IH {| meta := meta pkg ++ [m]; objects := objects pkg |} F')
        as (pre & E & R & A & N).
      rewrite E.
      exists ([EvRead (Ok c); EvDecodeMeta c] ++ pre). rewrite <- app_assoc.
      cbn [app readsOf annotated In]. rewrite R, A.
      repeat split; auto. intros [H|[H|H]]; [discriminate|discriminate|auto].
    + rewrite (parseLoop_obj p rc c em o _ pkg HB HM HN HO), callsOf_after.
      destruct (IH {| meta := meta pkg; objects := objects pkg ++ [o] |} F')
        as (pre & E & R & A & N).
      rewrite E.
      exists ([EvRead (Ok c); EvDecodeMeta c; EvDecodeObj c] ++ pre).
      rewrite <- app_assoc.
      cbn [app readsOf annotated In]. rewrite R, A.
      repeat split; auto.
      intros [H|[H|[H|H]]]; [discriminate|discriminate|discriminate|auto].
    + exfalso. destruct D as [D|[(m & D)|(e & o & D1 & _ & D3)]]; congruence.
    + exfalso. destruct D as [D|[(m & D)|(e & o & D1 & D2 & _)]]; congruence.
Qed.

(** A non-blank document reached after documents that decode is read and
    handed to the metadata scheme, and what follows goes by the answer of
    the metadata scheme. *)
Lemma parseLoop_reached_document (docs : list string) (c : string)
    (post : list (result string)) (pkg : Package Object) :
  Forall (decodes p) docs ->
  isEmptyYAML c = false ->
  exists pre post',
    callsOf (parseLoop p rc (map Ok docs ++ Ok c :: post) pkg)
    = pre ++ EvRead (Ok c) :: EvDecodeMeta c :: post'
    /\ readsOf pre = map Ok docs
    /\ match Decode (metaScheme p) c with
       | Ok _ => exists r post'', post' = EvRead r :: post''
       | Err e =>
         if IsNotRegisteredError (Some e)
         then exists post'', post' = EvDecodeObj c :: post''
         else post' = snd (annotateErr (Some e) rc)
              /\ errOf (parseLoop p rc (map Ok docs ++ Ok c :: post) pkg)
                 = fst (annotateErr (Some e) rc)
       end.
Proof.
  intros F NB.
  destruct (parseLoop_calls_prefix docs (Ok c :: post) pkg F)
    as (pre & E & R & _ & _).
  destruct (parseLoop_prefix p rc docs (Ok c :: post) pkg
              (parseLoop_decodes docs pkg F)) as (_ & PE).
  rewrite E, PE. exists pre.
  destruct (parseLoop_acc p rc (Ok c :: post)
              (pkgOf (parseLoop p rc (map Ok docs) pkg))) as (_ & AE & _).
  rewrite AE. clear E PE AE.
  destruct (Decode (metaScheme p) c) as [m|em] eqn:HM.
  - rewrite (parseLoop_meta p rc c m post _ NB HM), callsOf_after. cbn [app].
    eexists. split; [reflexivity|]. split; [exact R|].
    apply parseLoop_starts_with_read.
  - destruct (IsNotRegisteredError (Some em)) eqn:HN.
    + destruct (Decode (objScheme p) c) as [o|eo] eqn:HO.
      * rewrite (parseLoop_obj p rc c em o post _ NB HM HN HO), callsOf_after.
        cbn [app]. eexists. split; [reflexivity|]. split; [exact R|]. eauto.
      * rewrite (parseLoop_obj_fail p rc c em eo post _ NB HM HN HO).
        cbn [callsOf snd app]. eexists. split; [reflexivity|].
        split; [exact R|]. eauto.
    + rewrite (parseLoop_meta_fail p rc c em post _ NB HM HN).
      cbn [callsOf errOf fst snd app]. eexists. split; [reflexivity|].
      split; [exact R|]. auto.
Qed.

(** A failing read reached after documents that decode ends the parse with
    its error; the package is the one of those documents, and the
    annotator was called on a decode failure of an annotated stream only. *)
Lemma parseLoop_fails_at (docs : list string) (bad : result string)
    (post : list (result string)) (err : option error) :
  Forall (decodes p) docs ->
  failsAt p rc bad err ->
  errOf (parseLoop p rc (map Ok docs ++ bad :: post) NewPackage) = err
  /\ err <> None
  /\ meta (pkgOf (parseLoop p rc (map Ok docs ++ bad :: post) NewPackage))
     = metaOf p (nonBlank docs)
  /\ objects (pkgOf (parseLoop p rc (map Ok docs ++ bad :: post) NewPackage))
     = objectsOf p (nonBlank docs)
  /\ annotated (callsOf (parseLoop p rc (map Ok docs ++ bad :: post) NewPackage))
     = match bad, annotation rc with
       | Ok c, Some _ =>
         match Decode (metaScheme p) c with
         | Ok _ => []
         | Err e =>
           if IsNotRegisteredError (Some e)
           then match Decode (objScheme p) c with
                | Ok _ => []
                | Err e' => [Some e']
                end
           else [Some e]
         end
       | _, _ => []
       end.
Proof.
  intros F B.
  pose proof (parseLoop_decodes docs NewPackage F) as S.
  destruct (parseLoop_prefix p rc docs (bad :: post) NewPackage S) as (P1 & P2).
  destruct (parseLoop_success_package p rc docs S) as (M & O).
  destruct (parseLoop_calls_prefix docs (bad :: post) NewPackage F)
    as (pre & E & _ & A & _).
  rewrite P1, P2, E, annotated_app, A. cbn [app].
  destruct (parseLoop_acc p rc (bad :: post)
              (pkgOf (parseLoop p rc (map Ok docs) NewPackage))) as (AP & AE & _).
  rewrite AP, AE, M, O. clear P1 P2 E AP AE.
  destruct bad as [c|e]; cbn [failsAt] in B.
  - destruct B as (NB & e & R & ->).
    destruct R as [(HM & HN)|(e0 & HM & HN & HO)].
    + rewrite (parseLoop_meta_fail p rc c e post _ NB HM HN), HM, HN.
      cbn [pkgOf errOf callsOf fst snd meta objects NewPackage].
      rewrite annotated_app, annotateErr_fst, annotateErr_snd, !app_nil_r.
      destruct (annotation rc); cbn; repeat split; auto; discriminate.
    + rewrite (parseLoop_obj_fail p rc c e0 e post _ NB HM HN HO), HM, HN, HO.
      cbn [pkgOf errOf callsOf fst snd meta objects NewPackage].
      rewrite annotated_app, annotateErr_fst, annotateErr_snd, !app_nil_r.
      destruct (annotation rc); cbn; repeat split; auto; discriminate.
  - destruct B as (HE & ->). rewrite parseLoop_read_err, HE.
    cbn [pkgOf errOf callsOf fst snd meta objects NewPackage annotated].
    rewrite !app_nil_r. repeat split; auto. discriminate.
Qed.

(** When the loop ends in an error, the stream splits into documents that
    decode and the read that fails with that error. *)
Lemma parseLoop_failing_read (rs : list (result string)) :
  forall pkg : Package Object,
  errOf (parseLoop p rc rs pkg) <> None ->
  exists docs bad post,
    rs = map Ok docs ++ bad :: post
    /\ Forall (decodes p) docs
    /\ failsAt p rc bad (errOf (parseLoop p rc rs pkg)).
Proof.
  induction rs as [|r rs IH]; intros pkg.
  - rewrite parseLoop_nil. cbn. congruence.
  - destruct r as [c|e].
    + doc_cases p c.
      * rewrite (parseLoop_blank p rc c rs pkg HB), errOf_after.
        intros H. destruct (IH pkg H) as (docs & bad & post & E & F & B).
        exists (c :: docs), bad, post. subst rs.
        repeat split; auto. constructor; [left; exact HB|exact F].
      * rewrite (parseLoop_meta p rc c m rs pkg HB HM), errOf_after.
        intros H. destruct (IH _ H) as (docs & bad & post & E & F & B).
        exists (c :: docs), bad, post. subst rs.
        repeat split; auto. constructor; [right; left; eauto|exact F].
      * rewrite (parseLoop_obj p rc c em o rs pkg HB HM HN HO), errOf_after.
        intros H. destruct (IH _ H) as (docs & bad & post & E & F & B).
        exists (c :: docs), bad, post. subst rs.
        repeat split; auto. constructor; [right; right; eauto|exact F].
      * rewrite (parseLoop_obj_fail p rc c em eo rs pkg HB HM HN HO).
        intros _. exists [], (Ok c), rs. cbn [map app errOf fst snd failsAt].
        repeat split; auto. exists eo. split; [right; eauto|].
        apply annotateErr_fst.
      * rewrite (parseLoop_meta_fail p rc c em rs pkg HB HM HN).
        intros _. exists [], (Ok c), rs. cbn [map app errOf fst snd failsAt].
        repeat split; auto. exists em. split; [left; auto|].
        apply annotateErr_fst.
    + rewrite parseLoop_read_err. cbn [errOf fst snd].
      destruct (Is (Some e) EOF) eqn:HE; [congruence|].
      intros _. exists [], (Err e), rs. cbn [map app failsAt]. auto.
Qed.

End Forward.

(** * Markers with white space before and after *)

Section Spaces.

Open Scope string_scope.

Lemma space_char (c : ascii) :
  (Ascii.eqb c " " || Ascii.eqb c "009" || Ascii.eqb c "011"
   || Ascii.eqb c "012" || Ascii.eqb c "013")%char = true ->
  (Go.byteZ c <? 0x80)%Z = true
  /\ Go.IsSpace (Go.byteZ c) = true
  /\ Ascii.eqb c Go.newline = false.
Proof.
  intros H. repeat (apply orb_true_iff in H; destruct H as [H|H]);
    apply Ascii.eqb_eq in H; subst c; repeat split.
Qed.

Lemma trimLeftLoop_spaces (ws t : string) :
  forall n,
  spaces ws = true ->
  Go.trimLeftLoop (String.length ws + n) Go.IsSpace (ws ++ t)
  = Go.trimLeftLoop n Go.IsSpace t.
Proof.
  induction ws as [|c ws IH]; intros n B; [reflexivity|].
  cbn [spaces] in B. apply andb_true_iff in B. destruct B as [Bc Bw].
  destruct (space_char c Bc) as (A & S & _).
  cbn [String.length Nat.add append Go.trimLeftLoop Go.DecodeRuneInString].
  rewrite A, S. cbn [Go.sliceFrom]. apply IH. exact Bw.
Qed.

Lemma TrimLeftFunc_spaces (ws t : string) :
  spaces ws = true ->
  Go.TrimLeftFunc (ws ++ t) Go.IsSpace = Go.TrimLeftFunc t Go.IsSpace.
Proof.
  intros B. unfold Go.TrimLeftFunc. rewrite length_append.
  apply trimLeftLoop_spaces. exact B.
Qed.

Lemma SplitLines_spaces (ws t : string) :
  spaces ws = true ->
  Go.SplitLines t = [t] ->
  Go.SplitLines (ws ++ t) = [ws ++ t].
Proof.
  intros B T. induction ws as [|c ws IH]; [exact T|].
  cbn [spaces] in B. apply andb_true_iff in B. destruct B as [Bc Bw].
  destruct (space_char c Bc) as (_ & _ & N).
  cbn [append Go.SplitLines]. rewrite N, (IH Bw). reflexivity.
Qed.

(** A marker after white space is a blank line of its own. *)
Lemma isEmptyYAML_marker_after_spaces (ws : string) :
  spaces ws = true ->
  isEmptyYAML (ws ++ "---") = true /\ isEmptyYAML (ws ++ "...") = true.
Proof.
  intros B. unfold isEmptyYAML.
  rewrite !(SplitLines_spaces ws _ B) by reflexivity.
  cbn [isEmptyYAML_lines]. rewrite !(TrimLeftFunc_spaces ws _ B).
  split; reflexivity.
Qed.

(** A marker with anything after it on its line is not a blank line. *)
Lemma marker_with_suffix_not_blank (ws : string) :
  ws <> "" ->
  ~ blankLine ("---" ++ ws) /\ ~ blankLine ("..." ++ ws).
Proof.
  intros NE. unfold blankLine. cbn [append].
  rewrite !TrimLeftFunc_keeps by reflexivity.
  destruct ws as [|c ws]; [contradiction|].
  split; intros [H|[H|[H|H]]]; discriminate H.
Qed.

Lemma isEmptyYAML_line_with_suffix (y ws : string) :
  ws <> "" ->
  In ("---" ++ ws) (Go.SplitLines y) \/ In ("..." ++ ws) (Go.SplitLines y) ->
  isEmptyYAML y = false.
Proof.
  intros NE I.
  destruct (isEmptyYAML y) eqn:E; [|reflexivity].
  apply isEmptyYAML_blank_lines in E. rewrite Forall_forall in E.
  destruct (marker_with_suffix_not_blank ws NE) as (N1 & N2).
  destruct I as [I|I]; apply E in I; contradiction.
Qed.

(** A line in the middle of a text counts for blankness on its own. *)
Lemma isEmptyYAML_middle_line (a line b : string) :
  isEmptyYAML (a ++ String Go.newline (line ++ String Go.newline b))
  = isEmptyYAML a && isEmptyYAML line && isEmptyYAML b.
Proof.
  unfold isEmptyYAML.
  rewrite !SplitLines_join, !isEmptyYAML_lines_app, andb_assoc. reflexivity.
Qed.

Lemma In_SplitLines_middle (a line b : string) :
  Go.SplitLines line = [line] ->
  In line (Go.SplitLines (a ++ String Go.newline (line ++ String Go.newline b))).
Proof.
  intros L. rewrite !SplitLines_join, L.
  apply in_or_app. right. left. reflexivity.
Qed.

End Spaces.

(** * Main theorems on the reads that the parser reaches *)

(** C1. For every non-blank document, [Parse] tries the metadata scheme
    first. On the calls made: the call that follows the read of a non-blank
    document is the metadata decode of that document; the object scheme is
    tried only straight after the metadata scheme failed on the same
    document with the not-registered error, and in that case it is tried;
    when the metadata scheme fails with any other error, [Parse] returns
    that error (through the annotator) and nothing follows but the
    annotation and the deferred Close. On the stream: a non-blank document
    that comes after documents that decode is read and handed to the
    metadata scheme, after the reads of those documents and no other; then
    the next call is a read when the metadata scheme decoded it, the
    object decode of the same document when the metadata scheme did not
    know its kind, and otherwise the annotation and Close, with the
    metadata scheme's error returned. *)
Theorem Parse_metadata_first {Object : Type}
    (p : PackageParser Object) (rc : ReadCloser) :
  (forall pre c post,
      callsOf (Parse p (Some rc)) = pre ++ EvRead (Ok c) :: post ->
      isEmptyYAML c = false ->
      exists post', post = EvDecodeMeta c :: post')
  /\ (forall pre c post,
      callsOf (Parse p (Some rc)) = pre ++ EvDecodeObj c :: post ->
      exists pre' e,
        pre = pre' ++ [EvDecodeMeta c]
        /\ Decode (metaScheme p) c = Err e
        /\ IsNotRegisteredError (Some e) = true)
  /\ (forall pre c post e,
      callsOf (Parse p (Some rc)) = pre ++ EvDecodeMeta c :: post ->
      Decode (metaScheme p) c = Err e ->
      IsNotRegisteredError (Some e) = true ->
      exists post', post = EvDecodeObj c :: post')
  /\ (forall pre c post e,
      callsOf (Parse p (Some rc)) = pre ++ EvDecodeMeta c :: post ->
      Decode (metaScheme p) c = Err e ->
      IsNotRegisteredError (Some e) = false ->
      errOf (Parse p (Some rc)) = fst (annotateErr (Some e) rc)
      /\ post = snd (annotateErr (Some e) rc) ++ [EvClose])
  /\ (forall docs c post,
      reads rc = map Ok docs ++ Ok c :: post ->
      Forall (decodes p) docs ->
      isEmptyYAML c = false ->
      exists pre post',
        callsOf (Parse p (Some rc))
        = pre ++ EvRead (Ok c) :: EvDecodeMeta c :: post'
        /\ readsOf pre = map Ok docs
        /\ match Decode (metaScheme p) c with
           | Ok _ => exists r post'', post' = EvRead r :: post''
           | Err e =>
             if IsNotRegisteredError (Some e)
             then exists post'', post' = EvDecodeObj c :: post''
             else post' = snd (annotateErr (Some e) rc) ++ [EvClose]
                  /\ errOf (Parse p (Some rc)) = fst (annotateErr (Some e) rc)
           end).
Proof.
  rewrite callsOf_Parse, errOf_Parse.
  split; [|split; [|split; [|split]]].
  - intros pre c post H NB.
    apply app_last_mid in H; [|discriminate].
    destruct H as (post0 & -> & H).
    destruct (calls_read_then_meta p rc _ _ _ _ _ H NB) as (post' & ->).
    eexists. reflexivity.
  - intros pre c post H.
    apply app_last_mid in H; [|discriminate].
    destruct H as (post0 & -> & H).
    eapply calls_obj_after_unregistered; eauto.
  - intros pre c post e H M N.
    apply app_last_mid in H; [|discriminate].
    destruct H as (post0 & -> & H).
    destruct (calls_unregistered_then_obj p rc _ _ _ _ _ _ H M N) as (post' & ->).
    eexists. reflexivity.
  - intros pre c post e H M N.
    apply app_last_mid in H; [|discriminate].
    destruct H as (post0 & -> & H).
    destruct (calls_meta_failure_aborts p rc _ _ _ _ _ _ H M N) as (E1 & E2).
    rewrite E1, E2. auto.
  - intros docs c post R F NB. rewrite R.
    destruct (parseLoop_reached_document p rc docs c post NewPackage F NB)
      as (pre & post' & E & RD & K).
    exists pre, (post' ++ [EvClose]). rewrite E, <- app_assoc.
    split; [reflexivity|]. split; [exact RD|].
    destruct (Decode (metaScheme p) c) as [m|e].
    + destruct K as (r & post'' & ->). eexists _, _. reflexivity.
    + destruct (IsNotRegisteredError (Some e)).
      * destruct K as (post'' & ->). eexists. reflexivity.
      * destruct K as (-> & K). auto.
Qed.

Lemma Parse_metadata_first_witness :
  exists pre post',
    callsOf (Parse Fixtures.parser
               (Some {| reads := [Ok "kind: Foo"; Ok "---"; Ok "kind: Bar"; Ok "kind: Foo"];
                        annotation := None |}))
    = pre ++ EvRead (Ok "kind: Bar") :: EvDecodeMeta "kind: Bar" :: post'
    /\ readsOf pre = map Ok ["kind: Foo"; "---"]
    /\ exists post'', post' = EvDecodeObj "kind: Bar" :: post''.
Proof.
  apply (proj2 (proj2 (proj2 (proj2
           (Parse_metadata_first Fixtures.parser
              {| reads := [Ok "kind: Foo"; Ok "---"; Ok "kind: Bar"; Ok "kind: Foo"];
                 annotation := None |}))))
           ["kind: Foo"; "---"] "kind: Bar" [Ok "kind: Foo"]).
  - reflexivity.
  - constructor; [right; left; exists "Foo"; reflexivity|].
    constructor; [left; reflexivity|constructor].
  - reflexivity.
Defined.

(** C3, amended. A read failure other than the end of the stream, reached
    after documents that decode, is returned as it is, and the annotator
    is not called, whether the stream has an annotation or not. A decode
    failure of a non-blank document reached after documents that decode is
    returned wrapped in the annotation when the stream has one, the
    annotator being called exactly once, on that failure; when the stream
    has none it is returned as it is. Every [Parse] ends in one of these
    ways or without error, and without error the annotator is not called:
    it is never called on a nil error. *)
Theorem Parse_annotates_decode_failures_once {Object : Type}
    (p : PackageParser Object) (rc : ReadCloser) :
  ((errOf (Parse p (Some rc)) = None
    /\ annotated (callsOf (Parse p (Some rc))) = [])
   \/ (exists e,
         In (Err e) (reads rc) /\ Is (Some e) EOF = false
         /\ errOf (Parse p (Some rc)) = Some e
         /\ annotated (callsOf (Parse p (Some rc))) = [])
   \/ (exists c e,
         In (Ok c) (reads rc) /\ isEmptyYAML c = false /\ rejects p c e
         /\ match annotation rc with
            | Some a =>
              errOf (Parse p (Some rc)) = Some (wrapError a e)
              /\ annotated (callsOf (Parse p (Some rc))) = [Some e]
            | None =>
              errOf (Parse p (Some rc)) = Some e
              /\ annotated (callsOf (Parse p (Some rc))) = []
            end))
  /\ (forall docs e post,
        reads rc = map Ok docs ++ Err e :: post ->
        Forall (decodes p) docs ->
        Is (Some e) EOF = false ->
        errOf (Parse p (Some rc)) = Some e
        /\ annotated (callsOf (Parse p (Some rc))) = [])
  /\ (forall docs c e post,
        reads rc = map Ok docs ++ Ok c :: post ->
        Forall (decodes p) docs ->
        isEmptyYAML c = false ->
        rejects p c e ->
        match annotation rc with
        | Some a =>
          errOf (Parse p (Some rc)) = Some (wrapError a e)
          /\ annotated (callsOf (Parse p (Some rc))) = [Some e]
        | None =>
          errOf (Parse p (Some rc)) = Some e
          /\ annotated (callsOf (Parse p (Some rc))) = []
        end).
Proof.
  rewrite errOf_Parse, callsOf_Parse, annotated_app. cbn [annotated].
  rewrite app_nil_r.
  split; [|split].
  - destruct (parseLoop_ends p rc (reads rc) NewPackage)
      as [H|[(e & I & H)|(c & e & I & NB & R & E & A)]].
    + left. exact H.
    + right; left. exists e. auto.
    + right; right. exists c, e. repeat split; auto.
      rewrite annotateErr_fst in E. rewrite annotateErr_snd in A.
      destruct (annotation rc); cbn in *; auto.
  - intros docs e post R F HE. rewrite R.
    destruct (parseLoop_fails_at p rc docs (Err e) post (Some e) F)
      as (E & _ & _ & _ & A); [split; auto|].
    rewrite E, A. auto.
  - intros docs c e post R F NB RJ. rewrite R.
    destruct (parseLoop_fails_at p rc docs (Ok c) post
                (match annotation rc with
                 | Some a => Some (wrapError a e)
                 | None => Some e
                 end) F) as (E & _ & _ & _ & A).
    { split; [exact NB|]. exists e. auto. }
    rewrite E, A.
    destruct RJ as [(HM & HN)|(e0 & HM & HN & HO)].
    + rewrite HM, HN. destruct (annotation rc); auto.
    + rewrite HM, HN, HO. destruct (annotation rc); auto.
Qed.

Lemma Parse_annotates_decode_failures_once_witness :
  (errOf (Parse Fixtures.parser
            (Some {| reads := [Ok "kind: Foo"; Err (errorString "connection reset by peer");
                               Ok "kind: Bar"];
                     annotation := Some "pod/pkg" |}))
   = Some (errorString "connection reset by peer")
   /\ annotated (callsOf (Parse Fixtures.parser
            (Some {| reads := [Ok "kind: Foo"; Err (errorString "connection reset by peer");
                               Ok "kind: Bar"];
                     annotation := Some "pod/pkg" |}))) = [])
  /\ (errOf (Parse Fixtures.parser
               (Some {| reads := [Ok "kind: Bar"; Ok "kind: Baz"];
                        annotation := Some "pkg.yaml" |}))
      = Some (wrapError "pkg.yaml" (notRegisteredErr "objects" "kind: Baz"))
      /\ annotated (callsOf (Parse Fixtures.parser
               (Some {| reads := [Ok "kind: Bar"; Ok "kind: Baz"];
                        annotation := Some "pkg.yaml" |})))
         = [Some (notRegisteredErr "objects" "kind: Baz")]).
Proof.
  split.
  - apply (proj1 (proj2
             (Parse_annotates_decode_failures_once Fixtures.parser
                {| reads := [Ok "kind: Foo"; Err (errorString "connection reset by peer");
                             Ok "kind: Bar"];
                   annotation := Some "pod/pkg" |}))
             ["kind: Foo"] (errorString "connection reset by peer") [Ok "kind: Bar"]).
    + reflexivity.
    + constructor; [right; left; exists "Foo"; reflexivity|constructor].
    + reflexivity.
  - apply (proj2 (proj2
             (Parse_annotates_decode_failures_once Fixtures.parser
                {| reads := [Ok "kind: Bar"; Ok "kind: Baz"];
                   annotation := Some "pkg.yaml" |}))
             ["kind: Bar"] "kind: Baz" (notRegisteredErr "objects" "kind: Baz") []).
    + reflexivity.
    + constructor; [|constructor].
      right; right. exists (notRegisteredErr "meta" "kind: Bar"), "Bar".
      repeat split.
    + reflexivity.
    + right. exists (notRegisteredErr "meta" "kind: Baz"). repeat split.
Defined.

(** C6. [Parse] is not transactional. A call without a stream, like a
    call on an empty stream, returns the new, empty package. When a stream
    has documents that decode and then a read that fails (a read failure
    other than the end of the stream, or a non-blank document that fails
    to decode), [Parse] returns the error of that read and, with it, the
    package that holds the decoded values of all the documents before it,
    whatever the stream holds after it. And every call that returns an
    error is such a call: the stream splits into documents that decode and
    the read that fails with the error returned, and the package returned
    is the one those documents alone produce. *)
Theorem Parse_not_transactional {Object : Type}
    (p : PackageParser Object) (rc : ReadCloser) :
  pkgOf (Parse p None) = NewPackage
  /\ pkgOf (Parse p (Some {| reads := []; annotation := annotation rc |}))
     = NewPackage
  /\ (forall docs bad post err,
        reads rc = map Ok docs ++ bad :: post ->
        Forall (decodes p) docs ->
        failsAt p rc bad err ->
        errOf (Parse p (Some rc)) = err
        /\ err <> None
        /\ GetMeta (pkgOf (Parse p (Some rc))) = metaOf p (nonBlank docs)
        /\ GetObjects (pkgOf (Parse p (Some rc))) = objectsOf p (nonBlank docs))
  /\ (errOf (Parse p (Some rc)) <> None ->
      exists docs bad post,
        reads rc = map Ok docs ++ bad :: post
        /\ Forall (decodes p) docs
        /\ failsAt p rc bad (errOf (Parse p (Some rc)))
        /\ errOf (Parse p (Some {| reads := map Ok docs;
                                   annotation := annotation rc |})) = None
        /\ pkgOf (Parse p (Some rc))
           = pkgOf (Parse p (Some {| reads := map Ok docs;
                                     annotation := annotation rc |}))
        /\ GetMeta (pkgOf (Parse p (Some rc))) = metaOf p (nonBlank docs)
        /\ GetObjects (pkgOf (Parse p (Some rc))) = objectsOf p (nonBlank docs)).
Proof.
  split; [reflexivity|]. split; [reflexivity|].
  rewrite errOf_Parse, pkgOf_Parse. split.
  - intros docs bad post err R F B. rewrite R.
    destruct (parseLoop_fails_at p rc docs bad post err F B)
      as (E & N & M & O & _).
    unfold GetMeta, GetObjects. auto.
  - intros H.
    destruct (parseLoop_failing_read p rc (reads rc) NewPackage H)
      as (docs & bad & post & E & F & B).
    exists docs, bad, post.
    pose proof (parseLoop_decodes p rc docs NewPackage F) as S.
    rewrite errOf_Parse, pkgOf_Parse. cbn [reads].
    rewrite (parseLoop_reads_irrelevant p rc (map Ok docs) (map Ok docs) NewPackage).
    destruct (parseLoop_fails_at p rc docs bad post _ F B) as (_ & _ & M & O & _).
    destruct (parseLoop_prefix p rc docs (bad :: post) NewPackage S) as (P1 & _).
    rewrite E in *. unfold GetMeta, GetObjects.
    repeat split; auto.
    rewrite P1.
    destruct (parseLoop_acc p rc (bad :: post)
                (pkgOf (parseLoop p rc (map Ok docs) NewPackage))) as (AP & _ & _).
    rewrite AP.
    assert (K : pkgOf (parseLoop p rc (bad :: post) NewPackage) = NewPackage).
    { clear - B. destruct bad as [c|e]; cbn [failsAt] in B.
      - destruct B as (NB & e & [(HM & HN)|(e0 & HM & HN & HO)] & _).
        + rewrite (parseLoop_meta_fail p rc c e post _ NB HM HN). reflexivity.
        + rewrite (parseLoop_obj_fail p rc c e0 e post _ NB HM HN HO). reflexivity.
      - rewrite parseLoop_read_err. reflexivity. }
    rewrite K. cbn [meta objects NewPackage]. rewrite !app_nil_r.
    destruct (pkgOf (parseLoop p rc (map Ok docs) NewPackage)). reflexivity.
Qed.

Lemma Parse_not_transactional_witness :
  errOf (Parse Fixtures.parser
           (Some {| reads := [Ok "kind: Foo"; Ok "# note"; Ok "kind: Bar";
                              Ok "kind: Foo:"; Ok "kind: Foo"];
                    annotation := Some "pkg.yaml" |}))
  = Some (wrapError "pkg.yaml"
            (errorString "yaml: mapping values are not allowed in this context"))
  /\ Some (wrapError "pkg.yaml"
             (errorString "yaml: mapping values are not allowed in this context"))
     <> None
  /\ GetMeta (pkgOf (Parse Fixtures.parser
           (Some {| reads := [Ok "kind: Foo"; Ok "# note"; Ok "kind: Bar";
                              Ok "kind: Foo:"; Ok "kind: Foo"];
                    annotation := Some "pkg.yaml" |})))
     = ["Foo"]
  /\ GetObjects (pkgOf (Parse Fixtures.parser
           (Some {| reads := [Ok "kind: Foo"; Ok "# note"; Ok "kind: Bar";
                              Ok "kind: Foo:"; Ok "kind: Foo"];
                    annotation := Some "pkg.yaml" |})))
     = ["Bar"].
Proof.
  apply (proj1 (proj2 (proj2
           (Parse_not_transactional Fixtures.parser
              {| reads := [Ok "kind: Foo"; Ok "# note"; Ok "kind: Bar";
                           Ok "kind: Foo:"; Ok "kind: Foo"];
                 annotation := Some "pkg.yaml" |})))
           ["kind: Foo"; "# note"; "kind: Bar"] (Ok "kind: Foo:") [Ok "kind: Foo"]).
  - reflexivity.
  - constructor; [right; left; exists "Foo"; reflexivity|].
    constructor; [left; reflexivity|].
    constructor; [|constructor].
    right; right. exists (notRegisteredErr "meta" "kind: Bar"), "Bar".
    repeat split.
  - split; [reflexivity|].
    exists (errorString "yaml: mapping values are not allowed in this context").
    split; [left; split; reflexivity|reflexivity].
Defined.

(** C10. Only leading white space is trimmed. A document with a line that
    is a marker followed by anything, white space included, is not blank,
    wherever the line stands in it; reached after documents that decode, it
    is read and handed to the metadata scheme. The same marker after
    spaces, tabs, vertical tabs, form feeds or carriage returns is a blank
    line: alone it is a blank document, and in the middle of a text it
    leaves the blankness of the text to the other lines. So the same white
    space makes a marker line non-blank after the marker and leaves it
    blank before. *)
Theorem trailing_whitespace_not_blank {Object : Type}
    (p : PackageParser Object) (anno : option string) :
  (forall y ws,
      ws <> ""%string ->
      In ("---" ++ ws)%string (Go.SplitLines y)
      \/ In ("..." ++ ws)%string (Go.SplitLines y) ->
      isEmptyYAML y = false)
  /\ (forall a b ws,
      ws <> ""%string ->
      Go.SplitLines ws = [ws] ->
      isEmptyYAML (a ++ String Go.newline (("---" ++ ws) ++ String Go.newline b))%string
      = false
      /\ isEmptyYAML (a ++ String Go.newline (("..." ++ ws) ++ String Go.newline b))%string
         = false)
  /\ (forall ws,
      spaces ws = true ->
      isEmptyYAML (ws ++ "---")%string = true
      /\ isEmptyYAML (ws ++ "...")%string = true
      /\ (forall a b,
            isEmptyYAML (a ++ String Go.newline ((ws ++ "---") ++ String Go.newline b))%string
            = isEmptyYAML a && isEmptyYAML b
            /\ isEmptyYAML (a ++ String Go.newline ((ws ++ "...") ++ String Go.newline b))%string
               = isEmptyYAML a && isEmptyYAML b))
  /\ (forall ws,
      ws <> ""%string ->
      spaces ws = true ->
      isEmptyYAML ("---" ++ ws)%string = false
      /\ isEmptyYAML ("..." ++ ws)%string = false)
  /\ (forall docs y ws post,
      ws <> ""%string ->
      In ("---" ++ ws)%string (Go.SplitLines y)
      \/ In ("..." ++ ws)%string (Go.SplitLines y) ->
      Forall (decodes p) docs ->
      exists pre post',
        callsOf (Parse p (Some {| reads := map Ok docs ++ Ok y :: post;
                                  annotation := anno |}))
        = pre ++ EvRead (Ok y) :: EvDecodeMeta y :: post'
        /\ readsOf pre = map Ok docs).
Proof.
  assert (L : forall ws, Go.SplitLines ws = [ws] ->
              Go.SplitLines ("---" ++ ws)%string = [("---" ++ ws)%string]
              /\ Go.SplitLines ("..." ++ ws)%string = [("..." ++ ws)%string]).
  { intros ws W. cbn [append].
    split; repeat (apply SplitLines_cons; [reflexivity|]); exact W. }
  split; [exact isEmptyYAML_line_with_suffix|].
  split.
  { intros a b ws NE W. destruct (L ws W) as (L1 & L2).
    split; apply (isEmptyYAML_line_with_suffix _ ws NE); [left|right];
      apply In_SplitLines_middle; assumption. }
  split.
  { intros ws S. destruct (isEmptyYAML_marker_after_spaces ws S) as (B1 & B2).
    split; [exact B1|]. split; [exact B2|].
    intros a b. rewrite !isEmptyYAML_middle_line, B1, B2, !andb_true_r. auto. }
  split.
  { intros ws NE S.
    assert (W : Go.SplitLines ws = [ws]).
    { rewrite <- (append_empty_r ws).
      apply SplitLines_spaces; [exact S|reflexivity]. }
    destruct (L ws W) as (L1 & L2).
    split; apply (isEmptyYAML_line_with_suffix _ ws NE); [left|right].
    - rewrite L1. left. reflexivity.
    - rewrite L2. left. reflexivity. }
  intros docs y ws post NE I F.
  pose proof (isEmptyYAML_line_with_suffix y ws NE I) as NB.
  rewrite callsOf_Parse. cbn [reads].
  destruct (parseLoop_reached_document p
              {| reads := map Ok docs ++ Ok y :: post; annotation := anno |}
              docs y post NewPackage F NB) as (pre & post' & E & R & _).
  exists pre, (post' ++ [EvClose]). rewrite E, <- app_assoc. auto.
Qed.

Lemma trailing_whitespace_not_blank_witness :
  exists pre post',
    callsOf (Parse Fixtures.parser
               (Some {| reads := map Ok ["kind: Foo"]
                                 ++ Ok ("kind: Bar" ++ String Go.newline "... ")%string
                                 :: [Ok "kind: Foo"];
                        annotation := None |}))
    = pre ++ EvRead (Ok ("kind: Bar" ++ String Go.newline "... ")%string)
          :: EvDecodeMeta ("kind: Bar" ++ String Go.newline "... ")%string :: post'
    /\ readsOf pre = map Ok ["kind: Foo"].
Proof.
  apply (proj2 (proj2 (proj2 (proj2
           (trailing_whitespace_not_blank Fixtures.parser None))))
           ["kind: Foo"] ("kind: Bar" ++ String Go.newline "... ")%string
           " "%string [Ok "kind: Foo"]).
  - discriminate.
  - right. right. left. reflexivity.
  - constructor; [right; left; exists "Foo"; reflexivity|constructor].
Defined.
